(** * Tensor.ts: a typed view over a raw byte buffer

    Shallow embedding of [src/bindings/web/rune/src/Tensor.ts] together with
    the part of the ECMAScript platform it calls into: the typed-array
    constructors [new C(buffer, byteOffset, length)], the integer-indexed
    element reads and writes of the returned view, and ordinary arrays held
    by reference.

    Objects that the source shares by reference live in an explicit store:
    array buffers (the bytes behind [Tensor.elements] and behind every view
    made from it) and number arrays (the [dimensions] of a [Shape]). For
    the accessors, [Tensor] and [Shape] instances are objects in a heap on
    top of that store. *)

From Stdlib Require Import ZArith QArith Qround String Ascii Strings.Byte Lia List.
From stdpp Require Import base option list gmap.

Local Open Scope Z_scope.

(** ** Element kinds and the typed-array table *)

(** The ten tags of [Shape.type], in the order of the [typedArrays] table. *)
Inductive ElementKind : Set :=
  | f64 | i64 | u64 | f32 | i32 | u32 | u16 | i16 | u8 | i8.

(** The tag as the string the source compares and prints. *)
Definition kind_name (k : ElementKind) : string :=
  match k with
  | f64 => "f64" | i64 => "i64" | u64 => "u64" | f32 => "f32"
  | i32 => "i32" | u32 => "u32" | u16 => "u16" | i16 => "i16"
  | u8 => "u8" | i8 => "i8"
  end%string.

(** The typed-array constructors of the platform. [Uint8Array] is the type
    of [Tensor.elements]; the other ten are the values of [typedArrays]. *)
Inductive TypedArrayCtor : Set :=
  | Float64Array | BigInt64Array | BigUint64Array | Float32Array
  | Int32Array | Uint32Array | Uint16Array | Int16Array
  | Uint8ClampedArray | Int8Array | Uint8Array.

(** [const typedArrays = { "f64": Float64Array, ... }] (Tensor.ts, 3-14). *)
Definition typedArrays (k : ElementKind) : TypedArrayCtor :=
  match k with
  | f64 => Float64Array
  | i64 => BigInt64Array
  | u64 => BigUint64Array
  | f32 => Float32Array
  | i32 => Int32Array
  | u32 => Uint32Array
  | u16 => Uint16Array
  | i16 => Int16Array
  | u8 => Uint8ClampedArray
  | i8 => Int8Array
  end.

(** [C.BYTES_PER_ELEMENT] of each constructor. *)
Definition BYTES_PER_ELEMENT (c : TypedArrayCtor) : Z :=
  match c with
  | Float64Array | BigInt64Array | BigUint64Array => 8
  | Float32Array | Int32Array | Uint32Array => 4
  | Uint16Array | Int16Array => 2
  | Uint8ClampedArray | Int8Array | Uint8Array => 1
  end.

(** ** Completions *)

(** What a call can throw: the [Error] built by [asTypedArray], and the two
    built-in errors of the typed-array constructors and element writes. *)
Inductive Exception : Set :=
  | Error (message : string)
  | RangeError
  | TypeError.

Inductive Completion (A : Type) : Type :=
  | Normal (a : A)
  | Throw (e : Exception).
Arguments Normal {A} a.
Arguments Throw {A} e.

Definition bind {A B : Type} (c : Completion A) (k : A -> Completion B)
  : Completion B :=
  match c with
  | Normal a => k a
  | Throw e => Throw e
  end.

Notation "'let*' x ':=' c 'in' k" := (bind c (fun x => k))
  (at level 10, x name, c at level 100, k at level 200).

Definition succeeds {A : Type} (c : Completion A) : Prop :=
  exists a, c = Normal a.

(** ** Numbers *)

(** A JavaScript Number as far as the source and the integer conversions
    need it: every finite double is a rational, kept exactly. [Fin 0] is
    [+0]. *)
Inductive Number : Set :=
  | NaN | PosInf | NegInf | NegZero
  | Fin (q : Q).

(** [a / b] on two integer-valued Numbers. The quotient is kept exact: the
    source divides a byte length (below 2^53) by 1, 2, 4 or 8, which loses
    nothing in double arithmetic either. *)
Definition Number_div (a b : Z) : Number :=
  if b =? 0 then
    (if a =? 0 then NaN else if 0 <? a then PosInf else NegInf)
  else Fin (Qmake (a * Z.sgn b) (Z.to_pos (Z.abs b))).

(** Rounding towards zero. *)
Definition Qtruncate (q : Q) : Z := Z.quot (Qnum q) (Zpos (Qden q)).

(** [ToIntegerOrInfinity], with the infinities kept apart. *)
Inductive IntegerOrInfinity : Set :=
  | Int (z : Z) | PlusInfinity | MinusInfinity.

Definition ToIntegerOrInfinity (x : Number) : IntegerOrInfinity :=
  match x with
  | NaN | NegZero => Int 0
  | PosInf => PlusInfinity
  | NegInf => MinusInfinity
  | Fin q => Int (Qtruncate q)
  end.

(** [ToIndex]: an integer in [0, 2^53 - 1], or a RangeError. *)
Definition ToIndex (x : Number) : Completion Z :=
  match ToIntegerOrInfinity x with
  | Int z => if (z <? 0) || (2 ^ 53 - 1 <? z) then Throw RangeError else Normal z
  | _ => Throw RangeError
  end.

(** ** The store *)

Definition loc := nat.

(** An ordinary array of numbers, with its [Object.freeze] flag. *)
Record ArrayObj : Set := { items : list Z; frozen : bool }.

(** [buffers] holds the data block of every ArrayBuffer that is not
    detached; [arrays] holds the number arrays. *)
Record Store : Type := {
  arrays : gmap loc ArrayObj;
  buffers : gmap loc (list byte)
}.

(** ** Typed arrays *)

Module TypedArray.

(** The internal slots of a typed-array view over a fixed-length buffer. *)
Record t : Set := mk {
  ctor : TypedArrayCtor;
  buffer : loc;
  ByteOffset : Z;
  ArrayLength : Z
}.

Definition elementSize (a : t) : Z := BYTES_PER_ELEMENT (ctor a).

(** The view lies inside the data block of a buffer that is not detached,
    and the block is no longer than the platform lets a buffer be. The
    platform keeps this true of every view it has constructed for as long
    as the buffer is not detached. *)
Definition valid (st : Store) (a : t) : Prop :=
  exists data,
    buffers st !! buffer a = Some data /\
    0 <= ByteOffset a /\ 0 <= ArrayLength a /\
    ByteOffset a + ArrayLength a * elementSize a
      <= Z.of_nat (List.length data) <= 2 ^ 53 - 1.

(** The accessor [a.byteOffset]: [0] once the buffer is detached. *)
Definition byteOffset (st : Store) (a : t) : Z :=
  match buffers st !! buffer a with
  | Some _ => ByteOffset a
  | None => 0
  end.

(** The accessor [a.byteLength]: [0] once the buffer is detached. *)
Definition byteLength (st : Store) (a : t) : Z :=
  match buffers st !! buffer a with
  | Some _ => ArrayLength a * elementSize a
  | None => 0
  end.

(** The accessor [a.length]. *)
Definition length (st : Store) (a : t) : Z :=
  match buffers st !! buffer a with
  | Some _ => ArrayLength a
  | None => 0
  end.

(** [new C(buffer, byteOffset, length)] with all three arguments given
    (InitializeTypedArrayFromArrayBuffer): the offset has to be a multiple
    of the element size, the buffer must not be detached, and
    [offset + length * size] must not pass the end of the buffer. No
    buffer is allocated: the view refers to [buffer] itself. *)
Definition construct (st : Store) (c : TypedArrayCtor)
    (buf : loc) (byteOffset : Z) (len : Number) : Completion t :=
  let elementSize := BYTES_PER_ELEMENT c in
  let* offset := ToIndex (Fin (inject_Z byteOffset)) in
  if negb (offset mod elementSize =? 0) then Throw RangeError else
  let* newLength := ToIndex len in
  match buffers st !! buf with
  | None => Throw TypeError
  | Some data =>
      let bufferByteLength := Z.of_nat (List.length data) in
      let newByteLength := newLength * elementSize in
      if bufferByteLength <? offset + newByteLength then Throw RangeError
      else Normal (mk c buf offset newLength)
  end.

End TypedArray.

(** ** Shape *)

Module Shape.

(** The two fields [Tensor.ts] reads: the element-kind tag and the
    dimensions, an array held by reference. *)
Record t : Set := mk { type : ElementKind; dimensions : loc }.

(** Modelled from the spec: the static table [Shape.ByteSize], which is
    declared in [Shape.ts]. The byte widths are 8, 4, 8, 4, 2, 1, 8, 4, 2, 1
    for f64, f32, i64, i32, i16, i8, u64, u32, u16, u8. *)
Definition ByteSize (k : ElementKind) : Z :=
  match k with
  | f64 => 8 | f32 => 4 | i64 => 8 | i32 => 4 | i16 => 2 | i8 => 1
  | u64 => 8 | u32 => 4 | u16 => 2 | u8 => 1
  end.

End Shape.

(** ** Tensor *)

Module Tensor.

(** [public readonly elements: Uint8Array; public readonly shape: Shape]. *)
Record t : Set := mk { shape : Shape.t; elements : TypedArray.t }.

Section Methods.

(** [Shape.toString()] is declared in [Shape.ts]; the methods below are
    parametric in it. It may read the dimensions from the store. *)
Variable Shape_toString : Store -> Shape.t -> string.

Definition mismatch_message (st : Store) (this : t)
    (elementType : ElementKind) : string :=
  ("Attempting to interpret a " ++ Shape_toString st (shape this)
     ++ " as a " ++ kind_name elementType ++ " tensor")%string.

(** [asTypedArray(elementType)] (Tensor.ts, 36-46). *)
Definition asTypedArray (st : Store) (this : t)
    (elementType : ElementKind) : Completion TypedArray.t :=
  if negb (String.eqb (kind_name (Shape.type (shape this)))
                      (kind_name elementType))
  then Throw (Error (mismatch_message st this elementType))
  else
    let buffer := TypedArray.buffer (elements this) in
    let byteOffset := TypedArray.byteOffset st (elements this) in
    let byteLength := TypedArray.byteLength st (elements this) in
    let length :=
      Number_div byteLength (Shape.ByteSize (Shape.type (shape this))) in
    let constructor := typedArrays elementType in
    TypedArray.construct st constructor buffer byteOffset length.

End Methods.

(** The field [elements] has its declared type, [Uint8Array], and is a
    valid view in the store. *)
Definition well_formed (st : Store) (this : t) : Prop :=
  TypedArray.ctor (elements this) = Uint8Array /\
  TypedArray.valid st (elements this).

(** [get elementType(): string]. *)
Definition elementType (this : t) : string :=
  kind_name (Shape.type (shape this)).

(** [get dimensions(): readonly number[]]: the reference held by the
    shape, not a copy. *)
Definition dimensions (this : t) : loc :=
  Shape.dimensions (shape this).

End Tensor.

(** ** Bytes and the little-endian element encoding *)

(** Typed arrays store their elements in the byte order of the platform,
    taken here to be little-endian. *)

Definition Z_of_byte (b : byte) : Z := Z.of_N (Byte.to_N b).

Definition byte_of_Z (z : Z) : byte :=
  match Byte.of_N (Z.to_N (z mod 256)) with
  | Some b => b
  | None => x00
  end.

(** The [n] low bytes of [v], least significant first: the two's-complement
    encoding when [v] is negative. *)
Fixpoint le_bytes (n : nat) (v : Z) : list byte :=
  match n with
  | O => []
  | S n' => byte_of_Z v :: le_bytes n' (v / 256)
  end.

Fixpoint le_value (bs : list byte) : Z :=
  match bs with
  | [] => 0
  | b :: bs' => Z_of_byte b + 256 * le_value bs'
  end.

(** ** Element conversions *)

(** What is written to or read from an element: a Number or a BigInt. *)
Inductive Value : Set :=
  | VNumber (x : Number)
  | VBigInt (z : Z).

Definition is_bigint (c : TypedArrayCtor) : bool :=
  match c with
  | BigInt64Array | BigUint64Array => true
  | _ => false
  end.

Definition is_signed (c : TypedArrayCtor) : bool :=
  match c with
  | Int8Array | Int16Array | Int32Array | BigInt64Array => true
  | _ => false
  end.

Definition is_float (c : TypedArrayCtor) : bool :=
  match c with
  | Float32Array | Float64Array => true
  | _ => false
  end.

Definition element_bits (c : TypedArrayCtor) : Z := 8 * BYTES_PER_ELEMENT c.

(** [z] modulo [2^bits], read as signed when asked. *)
Definition wrap (bits : Z) (signed : bool) (z : Z) : Z :=
  let m := z mod 2 ^ bits in
  if signed && (2 ^ (bits - 1) <=? m) then m - 2 ^ bits else m.

(** [ToInt8], [ToUint8], [ToInt16], ..., [ToUint32]: not finite gives [0],
    otherwise truncate and wrap. *)
Definition ToIntN (bits : Z) (signed : bool) (x : Number) : Z :=
  match ToIntegerOrInfinity x with
  | Int z => wrap bits signed z
  | _ => 0
  end.

(** [ToUint8Clamp]: clamp to [0, 255], then round half to even. *)
Definition ToUint8Clamp (x : Number) : Z :=
  match x with
  | NaN | NegInf | NegZero => 0
  | PosInf => 255
  | Fin q =>
      if Qle_bool q 0 then 0
      else if Qle_bool 255 q then 255
      else
        let f := Qfloor q in
        match Qcompare q (inject_Z f + (1 # 2)) with
        | Lt => f
        | Gt => f + 1
        | Eq => if Z.even f then f else f + 1
        end
  end.

Section Elements.

(** The IEEE 754 binary32 and binary64 codecs of the platform, between a
    Number and the integer whose low bits are the encoding. Element reads
    and writes of the two float kinds are parametric in them. *)
Variable FloatToBits : TypedArrayCtor -> Number -> Z.
Variable BitsToFloat : TypedArrayCtor -> Z -> Number.

(** The integer whose low [element_bits c] bits are stored for [v]
    (NumericToRawBytes before the byte split). *)
Definition NumericToInt (c : TypedArrayCtor) (v : Value) : Z :=
  match v with
  | VBigInt z => wrap 64 (is_signed c) z
  | VNumber x =>
      match c with
      | Float32Array | Float64Array => FloatToBits c x
      | Uint8ClampedArray => ToUint8Clamp x
      | _ => ToIntN (element_bits c) (is_signed c) x
      end
  end.

Definition NumericToRawBytes (c : TypedArrayCtor) (v : Value) : list byte :=
  le_bytes (Z.to_nat (BYTES_PER_ELEMENT c)) (NumericToInt c v).

Definition RawBytesToNumeric (c : TypedArrayCtor) (raw : list byte) : Value :=
  let u := le_value raw in
  if is_float c then VNumber (BitsToFloat c u)
  else
    let z := wrap (element_bits c) (is_signed c) u in
    if is_bigint c then VBigInt z else VNumber (Fin (inject_Z z)).

(** [ToBigInt] of a Number and [ToNumber] of a BigInt throw. *)
Definition ToElementNumeric (c : TypedArrayCtor) (v : Value)
  : Completion Value :=
  match v with
  | VNumber _ => if is_bigint c then Throw TypeError else Normal v
  | VBigInt _ => if is_bigint c then Normal v else Throw TypeError
  end.

(** The bytes [byteIndex, byteIndex + n) of a data block. *)
Definition slice (data : list byte) (byteIndex n : nat) : list byte :=
  take n (drop byteIndex data).

(** The data block with [raw] written over the bytes from [byteIndex]. *)
Definition splice (data : list byte) (byteIndex : nat) (raw : list byte)
  : list byte :=
  take byteIndex data ++ raw ++ drop (byteIndex + List.length raw) data.

Definition GetValueFromBuffer (st : Store) (buf : loc) (byteIndex : Z)
    (c : TypedArrayCtor) : option Value :=
  match buffers st !! buf with
  | Some data =>
      Some (RawBytesToNumeric c
              (slice data (Z.to_nat byteIndex)
                     (Z.to_nat (BYTES_PER_ELEMENT c))))
  | None => None
  end.

Definition SetValueInBuffer (st : Store) (buf : loc) (byteIndex : Z)
    (c : TypedArrayCtor) (v : Value) : Store :=
  match buffers st !! buf with
  | Some data =>
      {| arrays := arrays st;
         buffers :=
           <[buf := splice data (Z.to_nat byteIndex) (NumericToRawBytes c v)]>
             (buffers st) |}
  | None => st
  end.

(** [IsValidIntegerIndex] for an integral index. *)
Definition IsValidIntegerIndex (st : Store) (a : TypedArray.t) (i : Z)
  : bool :=
  match buffers st !! TypedArray.buffer a with
  | Some _ => (0 <=? i) && (i <? TypedArray.ArrayLength a)
  | None => false
  end.

Definition byteIndexInBuffer (a : TypedArray.t) (i : Z) : Z :=
  i * TypedArray.elementSize a + TypedArray.ByteOffset a.

(** [a[i]]: [None] is [undefined]. *)
Definition TypedArrayGetElement (st : Store) (a : TypedArray.t) (i : Z)
  : option Value :=
  if IsValidIntegerIndex st a i
  then GetValueFromBuffer st (TypedArray.buffer a) (byteIndexInBuffer a i)
         (TypedArray.ctor a)
  else None.

(** [a[i] = v]: converts first, then writes when the index is valid and
    does nothing otherwise. *)
Definition TypedArraySetElement (st : Store) (a : TypedArray.t) (i : Z)
    (v : Value) : Completion Store :=
  let* numValue := ToElementNumeric (TypedArray.ctor a) v in
  if IsValidIntegerIndex st a i
  then Normal (SetValueInBuffer st (TypedArray.buffer a)
                 (byteIndexInBuffer a i) (TypedArray.ctor a) numValue)
  else Normal st.

(** A value that an element of [c] holds exactly: an integer of the
    element's range, or a Number that the float codec gives back. *)
Definition representable (c : TypedArrayCtor) (v : Value) : Prop :=
  match v with
  | VBigInt z => is_bigint c = true /\ wrap 64 (is_signed c) z = z
  | VNumber x =>
      is_bigint c = false /\
      if is_float c
      then BitsToFloat c (FloatToBits c x mod 2 ^ element_bits c) = x
      else exists z, x = Fin (inject_Z z) /\
                     wrap (element_bits c) (is_signed c) z = z
  end.

End Elements.

(** ** Ordinary arrays *)

Definition Array_get (st : Store) (r : loc) (i : nat) : option Z :=
  match arrays st !! r with
  | Some a => items a !! i
  | None => None
  end.

Definition Array_length (st : Store) (r : loc) : option nat :=
  match arrays st !! r with
  | Some a => Some (List.length (items a))
  | None => None
  end.

(** [arr.push(v)]: appends in place, and throws on a frozen array. *)
Definition Array_push (st : Store) (r : loc) (v : Z) : Completion Store :=
  match arrays st !! r with
  | Some a =>
      if frozen a then Throw TypeError
      else Normal {| arrays :=
                       <[r := {| items := items a ++ [v]; frozen := false |}]>
                         (arrays st);
                     buffers := buffers st |}
  | None => Throw TypeError
  end.

(** [arr.pop()]: removes the last item in place and returns it
    ([None] is [undefined], from an empty array); throws on a frozen
    array. *)
Definition Array_pop (st : Store) (r : loc) : Completion (option Z * Store) :=
  match arrays st !! r with
  | Some a =>
      if frozen a then Throw TypeError
      else Normal (last (items a),
                   {| arrays :=
                        <[r := {| items := removelast (items a);
                                  frozen := false |}]> (arrays st);
                      buffers := buffers st |})
  | None => Throw TypeError
  end.

(** A new array with the items [l], at a reference not yet in use. *)
Definition Array_alloc (st : Store) (l : list Z) : loc * Store :=
  let r := fresh (dom (arrays st) ∪ dom (buffers st)) in
  (r, {| arrays := <[r := {| items := l; frozen := false |}]> (arrays st);
         buffers := buffers st |}).

(** [l.indexOf(v)]: the first index of [v], or [-1]. *)
Fixpoint index_of (v : Z) (l : list Z) : Z :=
  match l with
  | [] => -1
  | x :: rest =>
      if x =? v then 0
      else let i := index_of v rest in if i <? 0 then -1 else i + 1
  end.

(** ** Tensor objects *)

Module Heap.

(** A [Tensor] instance: its two fields, set once by the constructor. The
    field [shape] refers to a [Shape] object. *)
Record TensorObj : Set := { shape : loc; elements : TypedArray.t }.

(** The store of arrays and buffers, and the [Tensor] and [Shape] objects
    by reference. *)
Record t : Type := mk {
  data : Store;
  tensors : gmap loc TensorObj;
  shapes : gmap loc Shape.t
}.

(** The tensor behind a reference, with its shape read through. *)
Definition resolve (h : t) (this : loc) : option Tensor.t :=
  match tensors h !! this with
  | Some o =>
      match shapes h !! shape o with
      | Some s => Some (Tensor.mk s (elements o))
      | None => None
      end
  | None => None
  end.

End Heap.

(** A method body: it runs on a heap, returns or throws, and leaves a
    heap. *)
Definition Method (A : Type) : Type := Heap.t -> Completion A * Heap.t.

Definition method_ret {A : Type} (a : A) : Method A := fun h => (Normal a, h).

Definition method_bind {A B : Type} (m : Method A) (k : A -> Method B)
  : Method B :=
  fun h =>
    match m h with
    | (Normal a, h') => k a h'
    | (Throw e, h') => (Throw e, h')
    end.

Notation "'let!' x ':=' m 'in' k" := (method_bind m (fun x => k))
  (at level 10, x name, m at level 100, k at level 200).

(** [this.shape]: a TypeError when [this] is not a tensor. *)
Definition field_shape (this : loc) : Method loc :=
  fun h =>
    match Heap.tensors h !! this with
    | Some o => (Normal (Heap.shape o), h)
    | None => (Throw TypeError, h)
    end.

(** [s.type] and [s.dimensions]: a TypeError when [s] is not a shape. *)
Definition field_type (s : loc) : Method ElementKind :=
  fun h =>
    match Heap.shapes h !! s with
    | Some o => (Normal (Shape.type o), h)
    | None => (Throw TypeError, h)
    end.

Definition field_dimensions (s : loc) : Method loc :=
  fun h =>
    match Heap.shapes h !! s with
    | Some o => (Normal (Shape.dimensions o), h)
    | None => (Throw TypeError, h)
    end.

(** [get elementType() { return this.shape.type; }] (Tensor.ts, 48-50). *)
Definition method_elementType (this : loc) : Method string :=
  let! s := field_shape this in
  let! ty := field_type s in
  method_ret (kind_name ty).

(** [get dimensions() { return this.shape.dimensions; }] (Tensor.ts,
    52-54). *)
Definition method_dimensions (this : loc) : Method loc :=
  let! s := field_shape this in
  field_dimensions s.

(** [new Tensor(shape, elements)] (Tensor.ts, 20-23): a new object that
    holds the two arguments by reference. *)
Definition new_Tensor (shape : loc) (elements : TypedArray.t) : Method loc :=
  fun h =>
    let r := fresh (dom (Heap.tensors h) ∪ dom (Heap.shapes h)
                      ∪ dom (arrays (Heap.data h))
                      ∪ dom (buffers (Heap.data h))) in
    (Normal r,
     Heap.mk (Heap.data h)
       (<[r := {| Heap.shape := shape; Heap.elements := elements |}]>
          (Heap.tensors h))
       (Heap.shapes h)).

(** A step on the store of arrays and buffers, as a method body; a throw
    leaves the heap as it was. *)
Definition on_store (f : Store -> Completion Store) : Method unit :=
  fun h =>
    match f (Heap.data h) with
    | Normal st' => (Normal tt, Heap.mk st' (Heap.tensors h) (Heap.shapes h))
    | Throw e => (Throw e, h)
    end.

(** What a program does with tensors: the two accessors, [asTypedArray],
    the constructor, and writes to the bytes and to arrays. *)
Inductive Op : Type :=
  | OpElementType (this : loc)
  | OpDimensions (this : loc)
  | OpAsTypedArray (this : loc) (k : ElementKind)
  | OpNewTensor (shape : loc) (elements : TypedArray.t)
  | OpWrite (a : TypedArray.t) (i : Z) (v : Value)
  | OpPush (r : loc) (v : Z).

Inductive OpValue : Set :=
  | StringValue (s : string)
  | RefValue (r : loc)
  | ViewValue (a : TypedArray.t)
  | NoValue.

Definition is_accessor (op : Op) : bool :=
  match op with
  | OpElementType _ | OpDimensions _ => true
  | _ => false
  end.

Section Programs.

Variable FloatToBits : TypedArrayCtor -> Number -> Z.
Variable Shape_toString : Store -> Shape.t -> string.

(** [this.asTypedArray(k)] on a tensor object. *)
Definition method_asTypedArray (this : loc) (k : ElementKind)
  : Method TypedArray.t :=
  fun h =>
    match Heap.resolve h this with
    | Some t => (Tensor.asTypedArray Shape_toString (Heap.data h) t k, h)
    | None => (Throw TypeError, h)
    end.

Definition run_op (op : Op) : Method OpValue :=
  match op with
  | OpElementType this =>
      let! s := method_elementType this in method_ret (StringValue s)
  | OpDimensions this =>
      let! r := method_dimensions this in method_ret (RefValue r)
  | OpAsTypedArray this k =>
      let! a := method_asTypedArray this k in method_ret (ViewValue a)
  | OpNewTensor shape elements =>
      let! r := new_Tensor shape elements in method_ret (RefValue r)
  | OpWrite a i v =>
      let! _ := on_store (fun st => TypedArraySetElement FloatToBits st a i v) in
      method_ret NoValue
  | OpPush r v =>
      let! _ := on_store (fun st => Array_push st r v) in method_ret NoValue
  end.

(** A program runs its steps in order; a step that throws is caught and the
    program goes on. *)
Fixpoint run (ops : list Op) (h : Heap.t)
  : list (Completion OpValue) * Heap.t :=
  match ops with
  | [] => ([], h)
  | op :: rest =>
      let '(out, h1) := run_op op h in
      let '(outs, h2) := run rest h1 in
      (out :: outs, h2)
  end.

End Programs.

(** ** Callers of [dimensions] *)

(** What a caller holds: the value that [dimensions] returned, of type
    [readonly number[]], and the arrays it made itself, of type
    [number[]]. *)
Inductive Handle : Set := Returned | Own (n : nat).

(** Array operations of a caller. *)
Inductive CallerOp : Set :=
  | At (h : Handle) (i : nat)
  | LengthOf (h : Handle)
  | IndexOf (h : Handle) (v : Z)
  | Slice (h : Handle) (start stop : nat)
  | Concat (h : Handle) (vs : list Z)
  | Push (h : Handle) (v : Z)
  | Pop (h : Handle).

(** What the type checker accepts: [readonly number[]] has no [push] and no
    [pop]; every operation is a member of [number[]]. *)
Definition permitted (op : CallerOp) : bool :=
  match op with
  | Push Returned _ | Pop Returned => false
  | _ => true
  end.

Inductive CallerValue : Set :=
  | Undefined
  | Num (z : Z)
  | NewArray (n : nat)
  | Thrown (e : Exception).

(** The caller's side: the store and the arrays the caller has made, in the
    order it made them. *)
Record Caller : Type := { caller_store : Store; own : list loc }.

Definition handle_ref (returned : loc) (c : Caller) (h : Handle) : option loc :=
  match h with
  | Returned => Some returned
  | Own n => own c !! n
  end.

Definition option_Num (o : option Z) : CallerValue :=
  match o with
  | Some z => Num z
  | None => Undefined
  end.

(** [h.slice(start, stop)] and [h.concat(vs)] put their result in a new
    array. *)
Definition caller_alloc (c : Caller) (l : list Z) : CallerValue * Caller :=
  let '(r, st') := Array_alloc (caller_store c) l in
  (NewArray (List.length (own c)),
   {| caller_store := st'; own := own c ++ [r] |}).

Definition run_caller_op (returned : loc) (op : CallerOp) (c : Caller)
  : CallerValue * Caller :=
  let st := caller_store c in
  let items_of h :=
    match handle_ref returned c h with
    | Some r => items <$> (arrays st !! r)
    | None => None
    end in
  match op with
  | At h i =>
      (match items_of h with
       | Some l => option_Num (l !! i)
       | None => Thrown TypeError
       end, c)
  | LengthOf h =>
      (match items_of h with
       | Some l => Num (Z.of_nat (List.length l))
       | None => Thrown TypeError
       end, c)
  | IndexOf h v =>
      (match items_of h with
       | Some l => Num (index_of v l)
       | None => Thrown TypeError
       end, c)
  | Slice h start stop =>
      match items_of h with
      | Some l => caller_alloc c (take (stop - start) (drop start l))
      | None => (Thrown TypeError, c)
      end
  | Concat h vs =>
      match items_of h with
      | Some l => caller_alloc c (l ++ vs)
      | None => (Thrown TypeError, c)
      end
  | Push h v =>
      match handle_ref returned c h with
      | Some r =>
          match Array_push st r v with
          | Normal st' =>
              (option_Num (Z.of_nat <$> Array_length st' r),
               {| caller_store := st'; own := own c |})
          | Throw e => (Thrown e, c)
          end
      | None => (Thrown TypeError, c)
      end
  | Pop h =>
      match handle_ref returned c h with
      | Some r =>
          match Array_pop st r with
          | Normal (v, st') =>
              (option_Num v, {| caller_store := st'; own := own c |})
          | Throw e => (Thrown e, c)
          end
      | None => (Thrown TypeError, c)
      end
  end.


(** ** Substrings *)

(** [haystack.startsWith(needle)]. *)
Fixpoint startsWith (haystack needle : string) {struct needle} : bool :=
  match needle, haystack with
  | EmptyString, _ => true
  | String _ _, EmptyString => false
  | String a needle', String b haystack' =>
      Ascii.eqb a b && startsWith haystack' needle'
  end.

(** [haystack.includes(needle)]. *)
Fixpoint includes (haystack needle : string) : bool :=
  startsWith haystack needle ||
  match haystack with
  | EmptyString => false
  | String _ rest => includes rest needle
  end.

(** ** Ordering of Numbers *)

(** [x < y] on Numbers: false as soon as one side is [NaN]. *)
Definition Number_lt (x y : Number) : Prop :=
  match x, y with
  | NaN, _ | _, NaN => False
  | PosInf, _ | _, NegInf => False
  | NegInf, _ | _, PosInf => True
  | NegZero, NegZero => False
  | NegZero, Fin b => (0 < b)%Q
  | Fin a, NegZero => (a < 0)%Q
  | Fin a, Fin b => (a < b)%Q
  end.

Definition Number_of_Z (z : Z) : Number := Fin (inject_Z z).

(** Modelled from the spec: [Shape.toString], declared in [Shape.ts], gives
    "a human-readable description that names the shape's declared kind". *)
Definition names_declared_kind (toS : Store -> Shape.t -> string) : Prop :=
  forall st s, includes (toS st s) (kind_name (Shape.type s)) = true.

(** ** Elements inside a data block *)

(** Element [i] of the view [a] exists and its bytes lie inside [data]. *)
Definition element_in (a : TypedArray.t) (i : Z) (data : list byte) : Prop :=
  0 <= i < TypedArray.ArrayLength a /\
  0 <= byteIndexInBuffer a i /\
  byteIndexInBuffer a i + TypedArray.elementSize a
    <= Z.of_nat (List.length data).

(** The Number that a [Uint8Array] gives for a byte. *)
Definition byte_value (b : byte) : Value := VNumber (Number_of_Z (Z_of_byte b)).

(** A stand-in for the float codec, for examples without float elements. *)
Definition zero_FloatToBits (c : TypedArrayCtor) (x : Number) : Z := 0.
Definition nan_BitsToFloat (c : TypedArrayCtor) (z : Z) : Number := NaN.

(** Element [j] of [b] is element [i] of [a] under another name: the same
    buffer, the same element type, the same bytes. *)
Definition same_element (a : TypedArray.t) (i : Z) (b : TypedArray.t) (j : Z)
  : Prop :=
  TypedArray.buffer b = TypedArray.buffer a /\
  TypedArray.ctor b = TypedArray.ctor a /\
  0 <= j < TypedArray.ArrayLength b /\
  byteIndexInBuffer b j = byteIndexInBuffer a i.

(** ** Sample objects *)

(** A store with one dimensions array, [[2, 3]], and one 24-byte buffer. *)
Definition sample_store : Store :=
  {| arrays := {[ 0%nat := {| items := [2; 3]; frozen := false |} ]};
     buffers := {[ 1%nat := replicate 24 x00 ]} |}.

(** A description that starts with the kind tag. *)
Definition sample_toString (st : Store) (s : Shape.t) : string :=
  (kind_name (Shape.type s) ++ "[..]")%string.

(** A tensor over the bytes [[offset, offset + len)] of the sample buffer. *)
Definition sample_tensor (k : ElementKind) (offset len : Z) : Tensor.t :=
  Tensor.mk (Shape.mk k 0%nat) (TypedArray.mk Uint8Array 1%nat offset len).


(** A heap with one tensor object, at reference 5, over the sample buffer,
    and its shape, at reference 6. *)
Definition sample_heap : Heap.t :=
  Heap.mk sample_store
    {[ 5%nat := {| Heap.shape := 6%nat;
                   Heap.elements := TypedArray.mk Uint8Array 1%nat 0 24 |} ]}
    {[ 6%nat := Shape.mk f32 0%nat ]}.

(** * Properties *)

(** ** Kinds *)

Lemma kind_name_inj k1 k2 : kind_name k1 = kind_name k2 -> k1 = k2.
Proof. destruct k1, k2; simpl; intros H; try reflexivity; discriminate H. Qed.

Lemma kind_name_eqb k1 k2 :
  String.eqb (kind_name k1) (kind_name k2) = true <-> k1 = k2.
Proof.
  rewrite String.eqb_eq. split; [apply kind_name_inj | now intros ->].
Qed.

Lemma typedArrays_width k : BYTES_PER_ELEMENT (typedArrays k) = Shape.ByteSize k.
Proof. now destruct k. Qed.

Lemma ByteSize_cases k :
  Shape.ByteSize k = 1 \/ Shape.ByteSize k = 2 \/
  Shape.ByteSize k = 4 \/ Shape.ByteSize k = 8.
Proof. destruct k; simpl; auto. Qed.

Lemma BYTES_PER_ELEMENT_cases c :
  BYTES_PER_ELEMENT c = 1 \/ BYTES_PER_ELEMENT c = 2 \/
  BYTES_PER_ELEMENT c = 4 \/ BYTES_PER_ELEMENT c = 8.
Proof. destruct c; simpl; auto. Qed.

Lemma ByteSize_pos k : 0 < Shape.ByteSize k.
Proof. destruct (ByteSize_cases k) as [H|[H|[H|H]]]; rewrite H; lia. Qed.

Lemma BYTES_PER_ELEMENT_pos c : 0 < BYTES_PER_ELEMENT c.
Proof. destruct (BYTES_PER_ELEMENT_cases c) as [H|[H|[H|H]]]; rewrite H; lia. Qed.

(** ** Indices *)

Lemma Qtruncate_inject_Z z : Qtruncate (inject_Z z) = z.
Proof. unfold Qtruncate; simpl. apply Z.quot_1_r. Qed.

Lemma ToIndex_integer z :
  0 <= z <= 2 ^ 53 - 1 -> ToIndex (Fin (inject_Z z)) = Normal z.
Proof.
  intros Hz. unfold ToIndex; simpl. rewrite Qtruncate_inject_Z.
  destruct (z <? 0) eqn:E1; [apply Z.ltb_lt in E1; lia|].
  destruct (2 ^ 53 - 1 <? z) eqn:E2; [apply Z.ltb_lt in E2; lia|].
  reflexivity.
Qed.

Lemma Number_div_pos a b :
  0 < b -> Number_div a b = Fin (Qmake a (Z.to_pos b)).
Proof.
  intros Hb. unfold Number_div.
  destruct (b =? 0) eqn:E; [apply Z.eqb_eq in E; lia|].
  rewrite Z.sgn_pos, Z.abs_eq, Z.mul_1_r by lia. reflexivity.
Qed.

(** Truncation of a non-negative quotient is the floor. *)
Lemma ToIndex_quotient a b :
  0 <= a <= 2 ^ 53 - 1 -> 0 < b ->
  ToIndex (Number_div a b) = Normal (a / b).
Proof.
  intros Ha Hb. rewrite Number_div_pos by assumption.
  unfold ToIndex, ToIntegerOrInfinity, Qtruncate; simpl.
  rewrite Z2Pos.id by assumption.
  rewrite Z.quot_div_nonneg by lia.
  assert (0 <= a / b) by (apply Z.div_pos; lia).
  assert (a / b <= a) by (apply Z.div_le_upper_bound; nia).
  destruct (a / b <? 0) eqn:E1; [apply Z.ltb_lt in E1; lia|].
  destruct (2 ^ 53 - 1 <? a / b) eqn:E2; [apply Z.ltb_lt in E2; lia|].
  reflexivity.
Qed.

(** ** The typed-array constructor *)

Lemma construct_not_Error st c buf off len msg :
  TypedArray.construct st c buf off len <> Throw (Error msg).
Proof.
  unfold TypedArray.construct, ToIndex. simpl.
  repeat match goal with
         | |- context [if ?b then _ else _] => destruct b; simpl
         | |- context [match ?x with _ => _ end] => destruct x; simpl
         end; discriminate.
Qed.

Lemma construct_aligned st c buf off len data :
  buffers st !! buf = Some data ->
  Z.of_nat (List.length data) <= 2 ^ 53 - 1 ->
  0 <= off -> 0 <= len -> 0 < BYTES_PER_ELEMENT c ->
  off + len <= Z.of_nat (List.length data) ->
  off mod BYTES_PER_ELEMENT c = 0 ->
  TypedArray.construct st c buf off (Number_div len (BYTES_PER_ELEMENT c)) =
    Normal (TypedArray.mk c buf off (len / BYTES_PER_ELEMENT c)).
Proof.
  intros Hbuf Hmax Hoff Hlen Hsz Hin Hal. unfold TypedArray.construct.
  rewrite ToIndex_integer by lia. simpl bind.
  rewrite Hal. simpl negb. cbv iota.
  rewrite ToIndex_quotient by lia. simpl bind.
  rewrite Hbuf.
  assert (len / BYTES_PER_ELEMENT c * BYTES_PER_ELEMENT c <= len).
  { rewrite Z.mul_comm. apply Z.mul_div_le. assumption. }
  destruct (Z.of_nat (List.length data)
              <? off + len / BYTES_PER_ELEMENT c * BYTES_PER_ELEMENT c) eqn:E.
  - apply Z.ltb_lt in E. lia.
  - reflexivity.
Qed.

Lemma construct_misaligned st c buf off len :
  0 <= off <= 2 ^ 53 - 1 ->
  off mod BYTES_PER_ELEMENT c <> 0 ->
  TypedArray.construct st c buf off len = Throw RangeError.
Proof.
  intros Hoff Hal. unfold TypedArray.construct.
  rewrite ToIndex_integer by lia. simpl bind.
  destruct (off mod BYTES_PER_ELEMENT c =? 0) eqn:E.
  - apply Z.eqb_eq in E. contradiction.
  - reflexivity.
Qed.

(** ** [asTypedArray] when the kinds agree *)

Section SameKind.

Variable toS : Store -> Shape.t -> string.
Variable st : Store.
Variable this : Tensor.t.

Let el := Tensor.elements this.
Let k := Shape.type (Tensor.shape this).

Lemma asTypedArray_same_kind :
  Tensor.asTypedArray toS st this k =
    TypedArray.construct st (typedArrays k) (TypedArray.buffer el)
      (TypedArray.byteOffset st el)
      (Number_div (TypedArray.byteLength st el) (Shape.ByteSize k)).
Proof.
  unfold Tensor.asTypedArray. fold k.
  rewrite (proj2 (kind_name_eqb k k) eq_refl). reflexivity.
Qed.

Hypothesis Hvalid : TypedArray.valid st el.

Lemma valid_byteLength_bounds :
  0 <= TypedArray.byteLength st el <= 2 ^ 53 - 1.
Proof.
  destruct Hvalid as (data & Hb & H0 & H1 & H2 & H3).
  unfold TypedArray.byteLength. rewrite Hb.
  pose proof (BYTES_PER_ELEMENT_pos (TypedArray.ctor el)).
  unfold TypedArray.elementSize in *. nia.
Qed.

Lemma asTypedArray_aligned :
  TypedArray.ByteOffset el mod Shape.ByteSize k = 0 ->
  Tensor.asTypedArray toS st this k =
    Normal (TypedArray.mk (typedArrays k) (TypedArray.buffer el)
              (TypedArray.ByteOffset el)
              (TypedArray.byteLength st el / Shape.ByteSize k)).
Proof.
  intros Hal. rewrite asTypedArray_same_kind.
  pose proof valid_byteLength_bounds as Hbl.
  destruct Hvalid as (data & Hb & H0 & H1 & H2 & H3).
  unfold TypedArray.byteOffset, TypedArray.byteLength in *. rewrite Hb in *.
  rewrite <- typedArrays_width in *.
  apply construct_aligned with (data := data); try assumption; try lia.
  apply BYTES_PER_ELEMENT_pos.
Qed.

Lemma asTypedArray_misaligned :
  TypedArray.ByteOffset el mod Shape.ByteSize k <> 0 ->
  Tensor.asTypedArray toS st this k = Throw RangeError.
Proof.
  intros Hal. rewrite asTypedArray_same_kind.
  destruct Hvalid as (data & Hb & H0 & H1 & H2 & H3).
  unfold TypedArray.byteOffset. rewrite Hb.
  pose proof (BYTES_PER_ELEMENT_pos (TypedArray.ctor el)).
  unfold TypedArray.elementSize in *.
  apply construct_misaligned; [nia | now rewrite typedArrays_width].
Qed.

End SameKind.

Lemma sample_tensor_valid k off len :
  0 <= off -> 0 <= len -> off + len <= 24 ->
  TypedArray.valid sample_store (Tensor.elements (sample_tensor k off len)).
Proof.
  intros H0 H1 H2. exists (replicate 24 x00).
  split; [reflexivity|].
  unfold TypedArray.elementSize; simpl.
  change (2 ^ 53 - 1) with 9007199254740991. lia.
Qed.

(** A successful [asTypedArray] returns a valid view of the buffer behind
    [elements], at the offset the [byteOffset] accessor reported. *)
Lemma asTypedArray_Normal_inv toS st this k ta :
  Tensor.asTypedArray toS st this k = Normal ta ->
  Shape.type (Tensor.shape this) = k /\
  TypedArray.ctor ta = typedArrays k /\
  TypedArray.buffer ta = TypedArray.buffer (Tensor.elements this) /\
  TypedArray.ByteOffset ta = TypedArray.ByteOffset (Tensor.elements this) /\
  exists data,
    buffers st !! TypedArray.buffer ta = Some data /\
    0 <= TypedArray.ByteOffset ta /\ 0 <= TypedArray.ArrayLength ta /\
    TypedArray.ByteOffset ta
      + TypedArray.ArrayLength ta * BYTES_PER_ELEMENT (TypedArray.ctor ta)
      <= Z.of_nat (List.length data).
Proof.
  unfold Tensor.asTypedArray. intros H.
  destruct (String.eqb _ _) eqn:Ek; simpl in H; [|discriminate].
  apply kind_name_eqb in Ek.
  unfold TypedArray.construct, TypedArray.byteOffset in H.
  destruct (buffers st !! TypedArray.buffer (Tensor.elements this))
    as [data|] eqn:Hb.
  2:{ destruct (ToIndex (Fin (inject_Z 0))); simpl in H; [|discriminate].
      destruct (negb _); [discriminate|].
      destruct (ToIndex _); simpl in H; discriminate. }
  unfold ToIndex at 1 in H. simpl ToIntegerOrInfinity in H.
  rewrite Qtruncate_inject_Z in H.
  destruct (_ || _) eqn:E0; simpl in H; [discriminate|].
  destruct (negb _); [discriminate|].
  unfold ToIndex in H.
  destruct (ToIntegerOrInfinity _) as [z| |]; simpl in H; try discriminate.
  destruct (_ || _) eqn:E1 in H; simpl in H; [discriminate|].
  destruct (_ <? _) eqn:E2 in H; [discriminate|].
  injection H as <-. simpl.
  apply orb_false_iff in E0 as [E0 _]. apply orb_false_iff in E1 as [E1 _].
  apply Z.ltb_ge in E0, E1, E2.
  repeat split; try assumption. exists data. now repeat split.
Qed.

(** C1. When the requested kind differs from the kind the shape declares,
    [asTypedArray] throws the mismatch [Error], whatever the store holds and
    whatever the offset and length of [elements] are, hence also for two
    kinds of one byte width. *)
Theorem asTypedArray_kind_mismatch
    (toS : Store -> Shape.t -> string) (st : Store) (this : Tensor.t)
    (k2 : ElementKind) :
  Shape.type (Tensor.shape this) <> k2 ->
  Tensor.asTypedArray toS st this k2
    = Throw (Error (Tensor.mismatch_message toS st this k2)).
Proof.
  intros Hne. unfold Tensor.asTypedArray.
  destruct (String.eqb _ _) eqn:E; [|reflexivity].
  apply kind_name_eqb in E. contradiction.
Qed.

Lemma asTypedArray_kind_mismatch_witness :
  Shape.type (Tensor.shape (sample_tensor i32 0 24)) <> u32 /\
  Shape.ByteSize i32 = Shape.ByteSize u32 /\
  Tensor.asTypedArray sample_toString sample_store (sample_tensor i32 0 24) u32
    = Throw (Error "Attempting to interpret a i32[..] as a u32 tensor").
Proof.
  split; [discriminate|]. split; [reflexivity|].
  apply (asTypedArray_kind_mismatch sample_toString sample_store
           (sample_tensor i32 0 24) u32).
  discriminate.
Defined.

(** C2, as stated, fails: four bytes at byte offset 1, declared [i32]. The
    length is a multiple of the width, and the constructor rejects the
    offset. *)
Lemma asTypedArray_exact_multiple_counterexample :
  TypedArray.valid sample_store (Tensor.elements (sample_tensor i32 1 4)) /\
  TypedArray.byteLength sample_store (Tensor.elements (sample_tensor i32 1 4))
    mod Shape.ByteSize i32 = 0 /\
  Tensor.asTypedArray sample_toString sample_store (sample_tensor i32 1 4) i32
    = Throw RangeError /\
  ~ succeeds (Tensor.asTypedArray sample_toString sample_store
                (sample_tensor i32 1 4) i32).
Proof.
  split; [apply sample_tensor_valid; lia|].
  split; [reflexivity|]. split; [reflexivity|].
  intros [ta H]. discriminate H.
Qed.

(** C2, amended. For a valid [elements] view whose byte offset and byte
    length are both multiples of the width of the declared kind [k],
    [asTypedArray(k)] returns a view made by the constructor of [k] whose
    length is the byte length divided by the width. *)
Theorem asTypedArray_exact_multiple
    (toS : Store -> Shape.t -> string) (st : Store) (this : Tensor.t)
    (k : ElementKind) :
  Shape.type (Tensor.shape this) = k ->
  TypedArray.valid st (Tensor.elements this) ->
  TypedArray.ByteOffset (Tensor.elements this) mod Shape.ByteSize k = 0 ->
  TypedArray.byteLength st (Tensor.elements this) mod Shape.ByteSize k = 0 ->
  exists ta,
    Tensor.asTypedArray toS st this k = Normal ta /\
    TypedArray.ctor ta = typedArrays k /\
    TypedArray.length st ta
      = TypedArray.byteLength st (Tensor.elements this) / Shape.ByteSize k /\
    TypedArray.length st ta * Shape.ByteSize k
      = TypedArray.byteLength st (Tensor.elements this).
Proof.
  intros <- Hv Hal Hmul. eexists. split.
  { apply asTypedArray_aligned; assumption. }
  pose proof Hv as (data & Hb & _).
  unfold TypedArray.length; simpl. rewrite Hb.
  split; [reflexivity|]. split; [reflexivity|].
  pose proof (ByteSize_pos (Shape.type (Tensor.shape this))).
  rewrite Z.mul_comm. symmetry. apply Z.div_exact; [lia | assumption].
Qed.

Lemma asTypedArray_exact_multiple_witness :
  exists ta,
    Tensor.asTypedArray sample_toString sample_store (sample_tensor f32 0 24) f32
      = Normal ta /\
    TypedArray.ctor ta = Float32Array /\
    TypedArray.length sample_store ta = 6 /\
    TypedArray.length sample_store ta * 4 = 24.
Proof.
  apply (asTypedArray_exact_multiple sample_toString sample_store
           (sample_tensor f32 0 24) f32).
  - reflexivity.
  - apply sample_tensor_valid; lia.
  - reflexivity.
  - reflexivity.
Defined.

(** C3, as stated, fails: eight bytes at byte offset 4, declared and
    requested as [f64]. The kinds agree and the call still throws. *)
Lemma asTypedArray_only_error_counterexample :
  Shape.type (Tensor.shape (sample_tensor f64 4 8)) = f64 /\
  TypedArray.valid sample_store (Tensor.elements (sample_tensor f64 4 8)) /\
  Tensor.asTypedArray sample_toString sample_store (sample_tensor f64 4 8) f64
    = Throw RangeError /\
  ~ succeeds (Tensor.asTypedArray sample_toString sample_store
                (sample_tensor f64 4 8) f64).
Proof.
  split; [reflexivity|]. split; [apply sample_tensor_valid; lia|].
  split; [reflexivity|]. intros [ta H]. discriminate H.
Qed.

(** C3, amended. The mismatch [Error] is thrown exactly when the kinds
    differ. When they agree, the outcome over a valid [elements] view is
    decided by its byte offset alone, whatever its length: a view is
    returned when the offset is a multiple of the width of the kind, and
    the constructor's [RangeError] is thrown when it is not. *)
Theorem asTypedArray_only_error
    (toS : Store -> Shape.t -> string) (st : Store) (this : Tensor.t)
    (k : ElementKind) :
  Shape.type (Tensor.shape this) = k ->
  TypedArray.valid st (Tensor.elements this) ->
  (forall msg, Tensor.asTypedArray toS st this k <> Throw (Error msg)) /\
  (TypedArray.ByteOffset (Tensor.elements this) mod Shape.ByteSize k = 0 ->
   succeeds (Tensor.asTypedArray toS st this k)) /\
  (TypedArray.ByteOffset (Tensor.elements this) mod Shape.ByteSize k <> 0 ->
   Tensor.asTypedArray toS st this k = Throw RangeError).
Proof.
  intros <- Hv. split; [|split].
  - intros msg. rewrite asTypedArray_same_kind. apply construct_not_Error.
  - intros Hal. eexists. apply asTypedArray_aligned; assumption.
  - intros Hal. apply asTypedArray_misaligned; assumption.
Qed.

Lemma asTypedArray_only_error_witness :
  (forall msg,
     Tensor.asTypedArray sample_toString sample_store (sample_tensor f64 8 7) f64
       <> Throw (Error msg)) /\
  (TypedArray.ByteOffset (Tensor.elements (sample_tensor f64 8 7))
     mod Shape.ByteSize f64 = 0 ->
   succeeds (Tensor.asTypedArray sample_toString sample_store
               (sample_tensor f64 8 7) f64)) /\
  (TypedArray.ByteOffset (Tensor.elements (sample_tensor f64 8 7))
     mod Shape.ByteSize f64 <> 0 ->
   Tensor.asTypedArray sample_toString sample_store (sample_tensor f64 8 7) f64
     = Throw RangeError).
Proof.
  apply (asTypedArray_only_error sample_toString sample_store
           (sample_tensor f64 8 7) f64).
  - reflexivity.
  - apply sample_tensor_valid; lia.
Defined.

(** C4, as stated, fails: five bytes at byte offset 3, declared [i16]. The
    length is not a multiple of the width, and the call throws instead of
    truncating. *)
Lemma asTypedArray_truncates_counterexample :
  TypedArray.valid sample_store (Tensor.elements (sample_tensor i16 3 5)) /\
  TypedArray.byteLength sample_store (Tensor.elements (sample_tensor i16 3 5))
    mod Shape.ByteSize i16 <> 0 /\
  Tensor.asTypedArray sample_toString sample_store (sample_tensor i16 3 5) i16
    = Throw RangeError /\
  ~ succeeds (Tensor.asTypedArray sample_toString sample_store
                (sample_tensor i16 3 5) i16).
Proof.
  split; [apply sample_tensor_valid; lia|].
  split; [discriminate|]. split; [reflexivity|].
  intros [ta H]. discriminate H.
Qed.

(** C4, amended. For a valid [elements] view whose byte offset is a multiple
    of the width of the declared kind [k] and whose byte length is not,
    [asTypedArray(k)] does not throw: the length of the returned view is the
    floor of the byte length over the width, and the bytes past the last
    whole element are left out. *)
Theorem asTypedArray_truncates
    (toS : Store -> Shape.t -> string) (st : Store) (this : Tensor.t)
    (k : ElementKind) :
  Shape.type (Tensor.shape this) = k ->
  TypedArray.valid st (Tensor.elements this) ->
  TypedArray.ByteOffset (Tensor.elements this) mod Shape.ByteSize k = 0 ->
  TypedArray.byteLength st (Tensor.elements this) mod Shape.ByteSize k <> 0 ->
  exists ta,
    Tensor.asTypedArray toS st this k = Normal ta /\
    TypedArray.length st ta
      = TypedArray.byteLength st (Tensor.elements this) / Shape.ByteSize k /\
    TypedArray.length st ta * Shape.ByteSize k
      < TypedArray.byteLength st (Tensor.elements this)
      < (TypedArray.length st ta + 1) * Shape.ByteSize k.
Proof.
  intros <- Hv Hal Hrem. eexists. split.
  { apply asTypedArray_aligned; assumption. }
  pose proof Hv as (data & Hb & _).
  unfold TypedArray.length; simpl. rewrite Hb.
  split; [reflexivity|].
  pose proof (ByteSize_pos (Shape.type (Tensor.shape this))) as Hpos.
  set (w := Shape.ByteSize (Shape.type (Tensor.shape this))) in *.
  set (n := TypedArray.byteLength st (Tensor.elements this)) in *.
  pose proof (Z.div_mod n w ltac:(lia)) as Hdm.
  pose proof (Z.mod_pos_bound n w Hpos) as Hmb.
  nia.
Qed.

Lemma asTypedArray_truncates_witness :
  exists ta,
    Tensor.asTypedArray sample_toString sample_store (sample_tensor i32 4 7) i32
      = Normal ta /\
    TypedArray.length sample_store ta = 1 /\
    TypedArray.length sample_store ta * 4 < 7
      < (TypedArray.length sample_store ta + 1) * 4.
Proof.
  apply (asTypedArray_truncates sample_toString sample_store
           (sample_tensor i32 4 7) i32).
  - reflexivity.
  - apply sample_tensor_valid; lia.
  - reflexivity.
  - discriminate.
Defined.

(** C7, as stated, fails: no bytes at byte offset 2, declared [i32]. The
    constructor checks the offset before it looks at the length. *)
Lemma asTypedArray_empty_counterexample :
  TypedArray.valid sample_store (Tensor.elements (sample_tensor i32 2 0)) /\
  TypedArray.byteLength sample_store (Tensor.elements (sample_tensor i32 2 0))
    = 0 /\
  Tensor.asTypedArray sample_toString sample_store (sample_tensor i32 2 0) i32
    = Throw RangeError /\
  ~ succeeds (Tensor.asTypedArray sample_toString sample_store
                (sample_tensor i32 2 0) i32).
Proof.
  split; [apply sample_tensor_valid; lia|].
  split; [reflexivity|]. split; [reflexivity|].
  intros [ta H]. discriminate H.
Qed.

(** C7, amended. For every kind [k], a valid [elements] view of no bytes
    whose byte offset is a multiple of the width of [k], declared [k],
    gives a view of length zero and no error. *)
Theorem asTypedArray_empty
    (toS : Store -> Shape.t -> string) (st : Store) (this : Tensor.t)
    (k : ElementKind) :
  Shape.type (Tensor.shape this) = k ->
  TypedArray.valid st (Tensor.elements this) ->
  TypedArray.ByteOffset (Tensor.elements this) mod Shape.ByteSize k = 0 ->
  TypedArray.byteLength st (Tensor.elements this) = 0 ->
  exists ta,
    Tensor.asTypedArray toS st this k = Normal ta /\
    TypedArray.ctor ta = typedArrays k /\
    TypedArray.length st ta = 0.
Proof.
  intros <- Hv Hal Hz. eexists. split.
  { apply asTypedArray_aligned; assumption. }
  pose proof Hv as (data & Hb & _).
  unfold TypedArray.length; simpl. rewrite Hb, Hz.
  split; [reflexivity|]. apply Z.div_0_l.
  pose proof (ByteSize_pos (Shape.type (Tensor.shape this))). lia.
Qed.

Lemma asTypedArray_empty_witness :
  exists ta,
    Tensor.asTypedArray sample_toString sample_store (sample_tensor u16 6 0) u16
      = Normal ta /\
    TypedArray.ctor ta = Uint16Array /\
    TypedArray.length sample_store ta = 0.
Proof.
  apply (asTypedArray_empty sample_toString sample_store
           (sample_tensor u16 6 0) u16).
  - reflexivity.
  - apply sample_tensor_valid; lia.
  - reflexivity.
  - reflexivity.
Defined.

(** ** Substrings *)

Lemma startsWith_app n h : startsWith (n ++ h) n = true.
Proof.
  induction n as [|a n IH]; simpl; [reflexivity|].
  rewrite Ascii.eqb_refl. assumption.
Qed.

Lemma startsWith_app_r n h t :
  startsWith h n = true -> startsWith (h ++ t) n = true.
Proof.
  revert h. induction n as [|a n IH]; intros h; simpl; [reflexivity|].
  destruct h as [|b h]; simpl; [discriminate|].
  intros H. apply andb_true_iff in H as [H1 H2].
  rewrite H1. simpl. apply IH, H2.
Qed.

Lemma startsWith_sound h n :
  startsWith h n = true -> exists b, h = (n ++ b)%string.
Proof.
  revert h. induction n as [|c n IH]; intros h H; simpl in *.
  - exists h. reflexivity.
  - destruct h as [|d h]; [discriminate|].
    apply andb_true_iff in H as [H1 H2]. apply Ascii.eqb_eq in H1 as ->.
    destruct (IH _ H2) as [b ->]. exists b. reflexivity.
Qed.

Lemma includes_startsWith h n : startsWith h n = true -> includes h n = true.
Proof. intros H. destruct h; simpl in *; rewrite H; reflexivity. Qed.

Lemma includes_app_l h t n : includes h n = true -> includes (h ++ t) n = true.
Proof.
  induction h as [|a h IH]; simpl; intros H.
  - rewrite orb_false_r in H. destruct n; [|discriminate].
    destruct t; reflexivity.
  - apply orb_true_iff in H as [H|H].
    + change (String a (h ++ t)) with (String a h ++ t)%string.
      rewrite (startsWith_app_r _ _ _ H). reflexivity.
    + rewrite (IH H). apply orb_true_r.
Qed.

Lemma includes_app_r h t n : includes t n = true -> includes (h ++ t) n = true.
Proof.
  intros H. induction h as [|a h IH]; simpl; [assumption|].
  rewrite IH. apply orb_true_r.
Qed.

Lemma includes_middle h n t : includes (h ++ n ++ t) n = true.
Proof. apply includes_app_r, includes_startsWith, startsWith_app. Qed.

Lemma includes_sound h n :
  includes h n = true -> exists a b, h = (a ++ n ++ b)%string.
Proof.
  induction h as [|c h IH]; simpl; intros H.
  - rewrite orb_false_r in H. destruct (startsWith_sound _ _ H) as [b Hb].
    exists EmptyString, b. assumption.
  - apply orb_true_iff in H as [H|H].
    + destruct (startsWith_sound _ _ H) as [b Hb].
      exists EmptyString, b. assumption.
    + destruct (IH H) as (a & b & ->). exists (String c a), b. reflexivity.
Qed.

Lemma sample_toString_names_kind : names_declared_kind sample_toString.
Proof. intros st [[] d]; reflexivity. Qed.

(** C6. On a mismatch the thrown [Error] has the message
    "Attempting to interpret a <description> as a <requested kind> tensor",
    where the description is what [Shape.toString] returns. The message
    holds the requested kind, and it holds the declared kind as soon as the
    description names it; so for a view declared [f32] and read as [i32] it
    holds both "f32" and "i32". *)
Theorem mismatch_error_message
    (toS : Store -> Shape.t -> string) (st : Store) (this : Tensor.t)
    (k2 : ElementKind) :
  names_declared_kind toS ->
  Shape.type (Tensor.shape this) <> k2 ->
  exists message,
    Tensor.asTypedArray toS st this k2 = Throw (Error message) /\
    message = ("Attempting to interpret a " ++ toS st (Tensor.shape this)
                 ++ " as a " ++ kind_name k2 ++ " tensor")%string /\
    includes message (kind_name (Shape.type (Tensor.shape this))) = true /\
    includes message (kind_name k2) = true /\
    (Shape.type (Tensor.shape this) = f32 -> k2 = i32 ->
     includes message "f32" = true /\ includes message "i32" = true).
Proof.
  intros Hnames Hne. eexists. split; [|split; [reflexivity|]].
  { unfold Tensor.asTypedArray.
    destruct (String.eqb _ _) eqn:E; [|reflexivity].
    apply kind_name_eqb in E. contradiction. }
  assert (Hdecl : includes
            ("Attempting to interpret a " ++ toS st (Tensor.shape this)
               ++ " as a " ++ kind_name k2 ++ " tensor")
            (kind_name (Shape.type (Tensor.shape this))) = true).
  { apply includes_app_r, includes_app_l, Hnames. }
  assert (Hreq : includes
            ("Attempting to interpret a " ++ toS st (Tensor.shape this)
               ++ " as a " ++ kind_name k2 ++ " tensor")
            (kind_name k2) = true).
  { do 2 apply includes_app_r. apply includes_middle. }
  split; [exact Hdecl|]. split; [exact Hreq|].
  intros Hf ->. rewrite Hf in Hdecl. split; [exact Hdecl | exact Hreq].
Qed.

Lemma mismatch_error_message_witness :
  exists message,
    Tensor.asTypedArray sample_toString sample_store (sample_tensor f32 0 24) i32
      = Throw (Error message) /\
    message = "Attempting to interpret a f32[..] as a i32 tensor"%string /\
    includes message "f32" = true /\
    includes message "i32" = true /\
    (f32 = f32 -> i32 = i32 ->
     includes message "f32" = true /\ includes message "i32" = true).
Proof.
  apply (mismatch_error_message sample_toString sample_store
           (sample_tensor f32 0 24) i32).
  - apply sample_toString_names_kind.
  - discriminate.
Defined.

(** ** Accessors *)

Lemma method_elementType_resolved h this t :
  Heap.resolve h this = Some t ->
  method_elementType this h = (Normal (Tensor.elementType t), h).
Proof.
  unfold Heap.resolve, method_elementType, method_bind, field_shape, field_type.
  destruct (Heap.tensors h !! this) as [o|]; [|discriminate].
  destruct (Heap.shapes h !! Heap.shape o) as [s|]; [|discriminate].
  intros [= <-]. reflexivity.
Qed.

Lemma method_dimensions_resolved h this t :
  Heap.resolve h this = Some t ->
  method_dimensions this h = (Normal (Tensor.dimensions t), h).
Proof.
  unfold Heap.resolve, method_dimensions, method_bind, field_shape,
    field_dimensions.
  destruct (Heap.tensors h !! this) as [o|]; [|discriminate].
  destruct (Heap.shapes h !! Heap.shape o) as [s|]; [|discriminate].
  intros [= <-]. reflexivity.
Qed.

(** The accessors leave the heap as it is, also when they throw. *)
Lemma method_elementType_heap this h : (method_elementType this h).2 = h.
Proof.
  unfold method_elementType, method_bind, field_shape, field_type.
  destruct (Heap.tensors h !! this) as [o|]; [|reflexivity].
  destruct (Heap.shapes h !! Heap.shape o); reflexivity.
Qed.

Lemma method_dimensions_heap this h : (method_dimensions this h).2 = h.
Proof.
  unfold method_dimensions, method_bind, field_shape, field_dimensions.
  destruct (Heap.tensors h !! this) as [o|]; [|reflexivity].
  destruct (Heap.shapes h !! Heap.shape o); reflexivity.
Qed.

Lemma fresh_tensor_ne (h : Heap.t) this o :
  Heap.tensors h !! this = Some o ->
  fresh (dom (Heap.tensors h) ∪ dom (Heap.shapes h)
           ∪ dom (arrays (Heap.data h)) ∪ dom (buffers (Heap.data h)))
    <> this.
Proof.
  intros Ho E.
  apply (is_fresh (dom (Heap.tensors h) ∪ dom (Heap.shapes h)
                     ∪ dom (arrays (Heap.data h))
                     ∪ dom (buffers (Heap.data h)))).
  rewrite E. repeat (apply elem_of_union; left). apply elem_of_dom. eauto.
Qed.

Section Runs.

Variable FloatToBits : TypedArrayCtor -> Number -> Z.
Variable toS : Store -> Shape.t -> string.

(** No step changes the fields of a tensor or of a shape that exists: the
    writes go to the store of arrays and buffers, and the constructor makes
    its object at a reference not in use. *)
Lemma run_op_resolve op h this t :
  Heap.resolve h this = Some t ->
  Heap.resolve (run_op FloatToBits toS op h).2 this = Some t.
Proof.
  intros Hr. destruct op as [r|r|r k|sh el|a i v|r v]; simpl.
  - unfold method_bind. pose proof (method_elementType_heap r h) as Hh.
    destruct (method_elementType r h) as [[s|e] h']; simpl in *; now subst.
  - unfold method_bind. pose proof (method_dimensions_heap r h) as Hh.
    destruct (method_dimensions r h) as [[s|e] h']; simpl in *; now subst.
  - unfold method_bind, method_asTypedArray.
    destruct (Heap.resolve h r); [destruct (Tensor.asTypedArray _ _ _ _)|];
      exact Hr.
  - unfold method_bind, new_Tensor; simpl. unfold Heap.resolve in *. simpl.
    destruct (Heap.tensors h !! this) as [o|] eqn:Ho; [|discriminate].
    rewrite lookup_insert_ne by (eapply fresh_tensor_ne; eassumption).
    rewrite Ho. exact Hr.
  - unfold method_bind, on_store.
    destruct (TypedArraySetElement _ _ _ _ _); exact Hr.
  - unfold method_bind, on_store. destruct (Array_push _ _ _); exact Hr.
Qed.

Lemma run_op_accessor op h :
  is_accessor op = true -> (run_op FloatToBits toS op h).2 = h.
Proof.
  destruct op as [r|r| | | |]; try discriminate; intros _; simpl.
  - unfold method_bind. pose proof (method_elementType_heap r h) as Hh.
    destruct (method_elementType r h) as [[s|e] h']; exact Hh.
  - unfold method_bind. pose proof (method_dimensions_heap r h) as Hh.
    destruct (method_dimensions r h) as [[s|e] h']; exact Hh.
Qed.

Lemma run_cons op rest h :
  run FloatToBits toS (op :: rest) h
    = ((run_op FloatToBits toS op h).1
         :: (run FloatToBits toS rest (run_op FloatToBits toS op h).2).1,
       (run FloatToBits toS rest (run_op FloatToBits toS op h).2).2).
Proof.
  simpl. destruct (run_op FloatToBits toS op h) as [out h1].
  simpl. destruct (run FloatToBits toS rest h1) as [outs h2]. reflexivity.
Qed.

End Runs.

(** C8. Take a heap in which [this] is a tensor with a shape, and any
    program of accessor calls, [asTypedArray] calls, constructor calls,
    element writes and array pushes, on this tensor or on others. Then the
    tensor is unchanged at the end; every call of [elementType] on it
    returns, without throwing, the kind tag of its shape, and every call of
    [dimensions] on it returns the reference its shape holds: the same
    values each time, whatever ran in between. A program made of accessor
    calls alone ends in the heap it started from. *)
Theorem accessors_pure
    (FloatToBits : TypedArrayCtor -> Number -> Z)
    (toS : Store -> Shape.t -> string)
    (ops : list Op) (h : Heap.t) (this : loc) (t : Tensor.t) :
  Heap.resolve h this = Some t ->
  Heap.resolve (run FloatToBits toS ops h).2 this = Some t /\
  (forall n, ops !! n = Some (OpElementType this) ->
     (run FloatToBits toS ops h).1 !! n
       = Some (Normal (StringValue (Tensor.elementType t)))) /\
  (forall n, ops !! n = Some (OpDimensions this) ->
     (run FloatToBits toS ops h).1 !! n
       = Some (Normal (RefValue (Tensor.dimensions t)))) /\
  (forallb is_accessor ops = true -> (run FloatToBits toS ops h).2 = h).
Proof.
  revert h. induction ops as [|op rest IH]; intros h Hr.
  { simpl. repeat split; try assumption; intros n Hn; discriminate Hn. }
  rewrite run_cons. simpl.
  pose proof (run_op_resolve FloatToBits toS op h this t Hr) as Hr1.
  destruct (IH _ Hr1) as (Hend & Hty & Hdim & Hacc).
  split; [exact Hend|]. split; [|split].
  - intros [|n] Hn; simpl in *; [|now apply Hty].
    injection Hn as ->. simpl. unfold method_bind.
    now rewrite (method_elementType_resolved h this t Hr).
  - intros [|n] Hn; simpl in *; [|now apply Hdim].
    injection Hn as ->. simpl. unfold method_bind.
    now rewrite (method_dimensions_resolved h this t Hr).
  - intros Hall. apply andb_true_iff in Hall as [Hop Hrest].
    rewrite (run_op_accessor FloatToBits toS op h Hop) in *.
    now apply Hacc.
Qed.

Lemma accessors_pure_witness :
  Heap.resolve
    (run zero_FloatToBits sample_toString
       [OpElementType 5%nat;
        OpWrite (TypedArray.mk Float32Array 1%nat 0 6) 0 (VBigInt 1);
        OpPush 0%nat 7; OpNewTensor 6%nat (TypedArray.mk Uint8Array 1%nat 0 8);
        OpDimensions 5%nat; OpElementType 5%nat]
       sample_heap).2 5%nat
    = Some (sample_tensor f32 0 24) /\
  (forall n,
     [OpElementType 5%nat;
      OpWrite (TypedArray.mk Float32Array 1%nat 0 6) 0 (VBigInt 1);
      OpPush 0%nat 7; OpNewTensor 6%nat (TypedArray.mk Uint8Array 1%nat 0 8);
      OpDimensions 5%nat; OpElementType 5%nat] !! n
       = Some (OpElementType 5%nat) ->
     (run zero_FloatToBits sample_toString
        [OpElementType 5%nat;
         OpWrite (TypedArray.mk Float32Array 1%nat 0 6) 0 (VBigInt 1);
         OpPush 0%nat 7; OpNewTensor 6%nat (TypedArray.mk Uint8Array 1%nat 0 8);
         OpDimensions 5%nat; OpElementType 5%nat]
        sample_heap).1 !! n
       = Some (Normal (StringValue "f32"))).
Proof.
  destruct (accessors_pure zero_FloatToBits sample_toString
              [OpElementType 5%nat;
               OpWrite (TypedArray.mk Float32Array 1%nat 0 6) 0 (VBigInt 1);
               OpPush 0%nat 7;
               OpNewTensor 6%nat (TypedArray.mk Uint8Array 1%nat 0 8);
               OpDimensions 5%nat; OpElementType 5%nat]
              sample_heap 5%nat (sample_tensor f32 0 24))
    as (Hend & Hty & _).
  - reflexivity.
  - split; [exact Hend | exact Hty].
Defined.

(** ** Callers of [dimensions] *)








(** The type is what protects the array: a [push] on the returned value,
    which [readonly number[]] does not offer, reaches the array of the
    shape, and is refused only when that array is frozen. *)
Lemma push_outside_the_type (this : Tensor.t) (st : Store) (a : ArrayObj)
    (v : Z) :
  arrays st !! Tensor.dimensions this = Some a ->
  permitted (Push Returned v) = false /\
  arrays
    (caller_store
       (run_caller_op (Tensor.dimensions this) (Push Returned v)
          {| caller_store := st; own := [] |}).2)
    !! Shape.dimensions (Tensor.shape this)
    = Some (if frozen a then a
            else {| items := items a ++ [v]; frozen := false |}).
Proof.
  intros Ha. split; [reflexivity|].
  unfold run_caller_op, handle_ref, Array_push. simpl.
  unfold Tensor.dimensions in *. rewrite Ha.
  destruct (frozen a); simpl; [exact Ha | apply lookup_insert_eq].
Qed.

(** ** Bytes and the element encoding *)

Lemma Z_of_byte_range b : 0 <= Z_of_byte b < 256.
Proof.
  unfold Z_of_byte. pose proof (Byte.to_N_bounded b). lia.
Qed.

Lemma Z_of_byte_of_Z z : Z_of_byte (byte_of_Z z) = z mod 256.
Proof.
  unfold Z_of_byte, byte_of_Z.
  pose proof (Z.mod_pos_bound z 256 ltac:(lia)) as Hm.
  destruct (Byte.of_N (Z.to_N (z mod 256))) as [b|] eqn:E.
  - apply Byte.to_of_N in E. rewrite E. apply Z2N.id. lia.
  - apply Byte.of_N_None_iff in E. lia.
Qed.

Lemma length_le_bytes n v : List.length (le_bytes n v) = n.
Proof. revert v. induction n as [|n IH]; intros v; simpl; [|rewrite IH]; reflexivity. Qed.

Lemma le_value_le_bytes n v :
  le_value (le_bytes n v) = v mod 2 ^ (8 * Z.of_nat n).
Proof.
  revert v. induction n as [|n IH]; intros v.
  - simpl. now rewrite Z.mod_1_r.
  - cbn [le_bytes le_value]. rewrite Z_of_byte_of_Z, IH.
    replace (8 * Z.of_nat (S n)) with (8 + 8 * Z.of_nat n) by lia.
    rewrite Z.pow_add_r by lia. change (2 ^ 8) with 256.
    symmetry. apply Z.rem_mul_r; [lia|]. apply Z.pow_pos_nonneg; lia.
Qed.

Lemma element_bits_nat c :
  8 * Z.of_nat (Z.to_nat (BYTES_PER_ELEMENT c)) = element_bits c.
Proof. now destruct c. Qed.

Lemma element_bits_pos c : 0 < element_bits c.
Proof. now destruct c. Qed.

Lemma wrap_mod bits s z :
  0 < bits -> wrap bits s (z mod 2 ^ bits) = wrap bits s z.
Proof.
  intros Hb. unfold wrap. rewrite Z.mod_mod; [reflexivity|].
  apply Z.pow_nonzero; lia.
Qed.

Lemma wrap_wrap bits s z :
  0 < bits -> wrap bits s (wrap bits s z) = wrap bits s z.
Proof.
  intros Hb. unfold wrap at 2.
  assert (H2 : 2 ^ bits <> 0) by (apply Z.pow_nonzero; lia).
  destruct (s && _).
  - rewrite <- (wrap_mod bits s z Hb). unfold wrap.
    replace (z mod 2 ^ bits - 2 ^ bits)
      with (z mod 2 ^ bits + (-1) * 2 ^ bits) by lia.
    rewrite Z.mod_add by assumption. reflexivity.
  - apply wrap_mod, Hb.
Qed.

Section Codec.

Variable FloatToBits : TypedArrayCtor -> Number -> Z.
Variable BitsToFloat : TypedArrayCtor -> Z -> Number.

Lemma length_NumericToRawBytes c v :
  List.length (NumericToRawBytes FloatToBits c v)
    = Z.to_nat (BYTES_PER_ELEMENT c).
Proof. apply length_le_bytes. Qed.

Lemma le_value_NumericToRawBytes c v :
  le_value (NumericToRawBytes FloatToBits c v)
    = NumericToInt FloatToBits c v mod 2 ^ element_bits c.
Proof.
  unfold NumericToRawBytes. rewrite le_value_le_bytes, element_bits_nat.
  reflexivity.
Qed.

(** What an integer element gives back after a Number was written. *)
Lemma codec_integer c x :
  is_float c = false -> is_bigint c = false ->
  RawBytesToNumeric BitsToFloat c (NumericToRawBytes FloatToBits c (VNumber x))
    = VNumber (Number_of_Z
                 (wrap (element_bits c) (is_signed c)
                    (NumericToInt FloatToBits c (VNumber x)))).
Proof.
  intros Hf Hb. unfold RawBytesToNumeric.
  rewrite le_value_NumericToRawBytes, Hf, Hb.
  rewrite wrap_mod by apply element_bits_pos. reflexivity.
Qed.

(** What a BigInt element gives back after a BigInt was written. *)
Lemma codec_bigint c z :
  is_bigint c = true ->
  RawBytesToNumeric BitsToFloat c (NumericToRawBytes FloatToBits c (VBigInt z))
    = VBigInt (wrap 64 (is_signed c) z).
Proof.
  intros Hb. unfold RawBytesToNumeric.
  rewrite le_value_NumericToRawBytes.
  assert (Hbits : element_bits c = 64) by (destruct c; try discriminate; reflexivity).
  assert (Hf : is_float c = false) by (destruct c; try discriminate; reflexivity).
  rewrite Hf, Hb, Hbits. simpl NumericToInt.
  rewrite wrap_mod, wrap_wrap by lia. reflexivity.
Qed.

Lemma ToUint8Clamp_integer z :
  0 <= z <= 255 -> ToUint8Clamp (Fin (inject_Z z)) = z.
Proof.
  intros Hz. unfold ToUint8Clamp.
  destruct (Qle_bool (inject_Z z) 0) eqn:E0.
  { apply Qle_bool_iff in E0. change 0%Q with (inject_Z 0) in E0.
    rewrite <- Zle_Qle in E0. lia. }
  destruct (Qle_bool 255 (inject_Z z)) eqn:E1.
  { apply Qle_bool_iff in E1. change 255%Q with (inject_Z 255) in E1.
    rewrite <- Zle_Qle in E1. lia. }
  rewrite Qfloor_Z.
  assert (Hlt : (inject_Z z < inject_Z z + (1 # 2))%Q).
  { rewrite <- (Qplus_0_r (inject_Z z)) at 1.
    apply Qplus_lt_r. reflexivity. }
  rewrite (proj1 (Qlt_alt _ _) Hlt). reflexivity.
Qed.

Lemma ToIntN_integer bits s z :
  ToIntN bits s (Fin (inject_Z z)) = wrap bits s z.
Proof. unfold ToIntN; simpl. now rewrite Qtruncate_inject_Z. Qed.

(** Writing a representable value and reading the bytes back gives it. *)
Lemma codec_roundtrip c v :
  representable FloatToBits BitsToFloat c v ->
  RawBytesToNumeric BitsToFloat c (NumericToRawBytes FloatToBits c v) = v.
Proof.
  destruct v as [x|z]; simpl.
  - intros [Hb Hr]. destruct (is_float c) eqn:Hf.
    + unfold RawBytesToNumeric.
      rewrite le_value_NumericToRawBytes, Hf.
      assert (Hn : NumericToInt FloatToBits c (VNumber x) = FloatToBits c x)
        by (destruct c; try discriminate; reflexivity).
      rewrite Hn, Hr. reflexivity.
    + destruct Hr as (z & -> & Hz).
      rewrite codec_integer by assumption. unfold Number_of_Z.
      assert (Hw : wrap (element_bits c) (is_signed c)
                     (NumericToInt FloatToBits c (VNumber (Fin (inject_Z z))))
                   = z); [|now rewrite Hw].
      assert (Hc : c = Uint8ClampedArray \/
                   NumericToInt FloatToBits c (VNumber (Fin (inject_Z z)))
                     = ToIntN (element_bits c) (is_signed c) (Fin (inject_Z z))).
      { destruct c; try discriminate; auto. }
      destruct Hc as [-> | Hc].
      * assert (Hz' : z mod 256 = z) by exact Hz.
        pose proof (Z.mod_pos_bound z 256 ltac:(lia)).
        change (NumericToInt FloatToBits Uint8ClampedArray
                  (VNumber (Fin (inject_Z z))))
          with (ToUint8Clamp (Fin (inject_Z z))).
        rewrite ToUint8Clamp_integer by lia. exact Hz.
      * rewrite Hc, ToIntN_integer, wrap_wrap by apply element_bits_pos.
        exact Hz.
  - intros [Hb Hz]. rewrite codec_bigint by assumption. now rewrite Hz.
Qed.

End Codec.

(** ** Data blocks *)

Lemma splice_lookup_in data i raw j :
  (i + List.length raw <= List.length data)%nat ->
  (i <= j < i + List.length raw)%nat ->
  splice data i raw !! j = raw !! (j - i)%nat.
Proof.
  intros H Hj. unfold splice.
  rewrite lookup_app_r; rewrite length_take_le by lia; [|lia].
  apply lookup_app_l. lia.
Qed.

Lemma splice_lookup_out data i raw j :
  (i + List.length raw <= List.length data)%nat ->
  (j < i \/ i + List.length raw <= j)%nat ->
  splice data i raw !! j = data !! j.
Proof.
  intros H Hj. unfold splice. destruct Hj as [Hj|Hj].
  - rewrite lookup_app_l by (rewrite length_take_le; lia).
    apply lookup_take_lt. assumption.
  - rewrite lookup_app_r; rewrite length_take_le by lia; [|lia].
    rewrite lookup_app_r by lia. rewrite lookup_drop. f_equal. lia.
Qed.

Lemma slice_lookup data i n j :
  (j < n)%nat -> slice data i n !! j = data !! (i + j)%nat.
Proof.
  intros H. unfold slice. rewrite lookup_take_lt by assumption.
  apply lookup_drop.
Qed.

Lemma slice_lookup_ge data i n j :
  (n <= j)%nat -> slice data i n !! j = None.
Proof. intros H. unfold slice. apply lookup_take_ge. assumption. Qed.

Lemma length_slice data i n :
  (i + n <= List.length data)%nat -> List.length (slice data i n) = n.
Proof.
  intros H. unfold slice. rewrite length_take_le; [reflexivity|].
  rewrite length_drop. lia.
Qed.

(** The bytes just written are the bytes read back. *)
Lemma slice_splice data i raw :
  (i + List.length raw <= List.length data)%nat ->
  slice (splice data i raw) i (List.length raw) = raw.
Proof.
  intros H. apply list_eq. intros j.
  destruct (decide (j < List.length raw)%nat) as [Hj|Hj].
  - rewrite slice_lookup by assumption.
    rewrite splice_lookup_in by lia. f_equal. lia.
  - rewrite slice_lookup_ge by lia. symmetry. apply lookup_ge_None. lia.
Qed.

(** One byte written inside a slice changes that byte of the slice. *)
Lemma slice_splice_byte data e n q b :
  (e <= q < e + n)%nat -> (e + n <= List.length data)%nat ->
  slice (splice data q [b]) e n = <[(q - e)%nat := b]> (slice data e n).
Proof.
  intros Hq Hn. apply list_eq. intros j.
  destruct (decide (j < n)%nat) as [Hj|Hj].
  - rewrite slice_lookup by assumption.
    destruct (decide (j = q - e)%nat) as [->|Hne].
    + rewrite list_lookup_insert_eq by (rewrite length_slice; lia).
      rewrite splice_lookup_in by (simpl; lia).
      replace (e + (q - e) - q)%nat with 0%nat by lia. reflexivity.
    + rewrite list_lookup_insert_ne by lia.
      rewrite slice_lookup by assumption.
      apply splice_lookup_out; simpl; lia.
  - rewrite slice_lookup_ge by lia. symmetry. apply lookup_ge_None.
    rewrite length_insert, length_slice by lia. lia.
Qed.

Lemma slice_byte data i b : data !! i = Some b -> slice data i 1 = [b].
Proof.
  intros H. apply list_eq. intros [|j].
  - rewrite slice_lookup by lia. rewrite Nat.add_0_r. assumption.
  - rewrite slice_lookup_ge by lia. reflexivity.
Qed.

(** ** Reads and writes through views *)

Section Views.

Variable FloatToBits : TypedArrayCtor -> Number -> Z.
Variable BitsToFloat : TypedArrayCtor -> Z -> Number.

Lemma valid_element_in st a i :
  TypedArray.valid st a -> 0 <= i < TypedArray.ArrayLength a ->
  exists data,
    buffers st !! TypedArray.buffer a = Some data /\ element_in a i data.
Proof.
  intros (data & Hb & H0 & H1 & H2 & H3) Hi. exists data.
  split; [assumption|]. unfold element_in, byteIndexInBuffer.
  pose proof (BYTES_PER_ELEMENT_pos (TypedArray.ctor a)).
  unfold TypedArray.elementSize in *. nia.
Qed.

Lemma ToElementNumeric_representable c v :
  representable FloatToBits BitsToFloat c v ->
  ToElementNumeric c v = Normal v.
Proof.
  destruct v; simpl; intros [Hb _]; rewrite Hb; reflexivity.
Qed.

Lemma set_element st a i v data :
  buffers st !! TypedArray.buffer a = Some data ->
  0 <= i < TypedArray.ArrayLength a ->
  ToElementNumeric (TypedArray.ctor a) v = Normal v ->
  TypedArraySetElement FloatToBits st a i v =
    Normal {| arrays := arrays st;
              buffers :=
                <[TypedArray.buffer a :=
                    splice data (Z.to_nat (byteIndexInBuffer a i))
                      (NumericToRawBytes FloatToBits (TypedArray.ctor a) v)]>
                  (buffers st) |}.
Proof.
  intros Hb Hi Hv. unfold TypedArraySetElement. rewrite Hv. simpl.
  unfold IsValidIntegerIndex, SetValueInBuffer. rewrite Hb.
  destruct (0 <=? i) eqn:E1; [|apply Z.leb_gt in E1; lia].
  destruct (i <? TypedArray.ArrayLength a) eqn:E2;
    [|apply Z.ltb_ge in E2; lia].
  reflexivity.
Qed.

Lemma get_element st b j data :
  buffers st !! TypedArray.buffer b = Some data ->
  0 <= j < TypedArray.ArrayLength b ->
  TypedArrayGetElement BitsToFloat st b j =
    Some (RawBytesToNumeric BitsToFloat (TypedArray.ctor b)
            (slice data (Z.to_nat (byteIndexInBuffer b j))
               (Z.to_nat (BYTES_PER_ELEMENT (TypedArray.ctor b))))).
Proof.
  intros Hb Hj. unfold TypedArrayGetElement, IsValidIntegerIndex.
  rewrite Hb.
  destruct (0 <=? j) eqn:E1; [|apply Z.leb_gt in E1; lia].
  destruct (j <? TypedArray.ArrayLength b) eqn:E2;
    [|apply Z.ltb_ge in E2; lia].
  simpl. unfold GetValueFromBuffer. rewrite Hb. reflexivity.
Qed.

Lemma RawBytesToNumeric_Uint8 b :
  RawBytesToNumeric BitsToFloat Uint8Array [b] = byte_value b.
Proof.
  unfold RawBytesToNumeric, byte_value, Number_of_Z. simpl is_float.
  simpl is_bigint. cbv iota. do 3 f_equal.
  cbn [le_value]. rewrite Z.mul_0_r, Z.add_0_r.
  change (Z_of_byte b mod 256 = Z_of_byte b).
  apply Z.mod_small, Z_of_byte_range.
Qed.

(** A write through [a] at [i], then a read through any view [b] of the
    same buffer and the same element type whose element [j] lies on the
    same bytes. *)
Lemma set_then_get st a b i j v data :
  buffers st !! TypedArray.buffer a = Some data ->
  element_in a i data ->
  ToElementNumeric (TypedArray.ctor a) v = Normal v ->
  TypedArray.buffer b = TypedArray.buffer a ->
  TypedArray.ctor b = TypedArray.ctor a ->
  0 <= j < TypedArray.ArrayLength b ->
  byteIndexInBuffer b j = byteIndexInBuffer a i ->
  exists st',
    TypedArraySetElement FloatToBits st a i v = Normal st' /\
    TypedArrayGetElement BitsToFloat st' b j =
      Some (RawBytesToNumeric BitsToFloat (TypedArray.ctor a)
              (NumericToRawBytes FloatToBits (TypedArray.ctor a) v)).
Proof.
  intros Hb (Hi & Hlo & Hhi) Hv Hbuf Hc Hj Hpos.
  eexists. split; [apply set_element; eassumption|].
  erewrite get_element; [|simpl; rewrite Hbuf; apply lookup_insert_eq|assumption].
  rewrite Hc, Hpos.
  rewrite <- (length_NumericToRawBytes FloatToBits (TypedArray.ctor a) v).
  rewrite slice_splice; [reflexivity|].
  rewrite length_NumericToRawBytes. unfold TypedArray.elementSize in Hhi.
  pose proof (BYTES_PER_ELEMENT_pos (TypedArray.ctor a)). lia.
Qed.

(** A write through [a] at [i], then a read of one of its bytes through a
    [Uint8Array] over the same buffer. *)
Lemma set_then_get_byte st a u i p v data n :
  buffers st !! TypedArray.buffer a = Some data ->
  element_in a i data ->
  ToElementNumeric (TypedArray.ctor a) v = Normal v ->
  TypedArray.buffer u = TypedArray.buffer a ->
  TypedArray.ctor u = Uint8Array ->
  0 <= p < TypedArray.ArrayLength u ->
  (n < Z.to_nat (BYTES_PER_ELEMENT (TypedArray.ctor a)))%nat ->
  byteIndexInBuffer u p = byteIndexInBuffer a i + Z.of_nat n ->
  exists st' b,
    TypedArraySetElement FloatToBits st a i v = Normal st' /\
    NumericToRawBytes FloatToBits (TypedArray.ctor a) v !! n = Some b /\
    TypedArrayGetElement BitsToFloat st' u p = Some (byte_value b).
Proof.
  intros Hb (Hi & Hlo & Hhi) Hv Hbuf Hc Hp Hn Hpos.
  set (raw := NumericToRawBytes FloatToBits (TypedArray.ctor a) v).
  assert (Hlen : List.length raw = Z.to_nat (BYTES_PER_ELEMENT (TypedArray.ctor a)))
    by apply length_NumericToRawBytes.
  destruct (lookup_lt_is_Some_2 raw n ltac:(lia)) as [b Hraw].
  eexists _, b. split; [apply set_element; eassumption|].
  split; [exact Hraw|].
  erewrite get_element; [|simpl; rewrite Hbuf; apply lookup_insert_eq|assumption].
  rewrite Hc. change (Z.to_nat (BYTES_PER_ELEMENT Uint8Array)) with 1%nat.
  erewrite slice_byte; [apply f_equal, RawBytesToNumeric_Uint8|].
  unfold TypedArray.elementSize in Hhi. fold raw.
  rewrite splice_lookup_in by lia.
  rewrite <- Hraw. f_equal. lia.
Qed.

(** A byte written through a [Uint8Array], then a read through [a] of the
    element that holds the byte. *)
Lemma set_byte_then_get st a u i p x data n :
  buffers st !! TypedArray.buffer a = Some data ->
  element_in a i data ->
  TypedArray.buffer u = TypedArray.buffer a ->
  TypedArray.ctor u = Uint8Array ->
  0 <= p < TypedArray.ArrayLength u ->
  (n < Z.to_nat (BYTES_PER_ELEMENT (TypedArray.ctor a)))%nat ->
  byteIndexInBuffer u p = byteIndexInBuffer a i + Z.of_nat n ->
  exists st' old,
    TypedArraySetElement FloatToBits st u p (VNumber x) = Normal st' /\
    TypedArrayGetElement BitsToFloat st a i
      = Some (RawBytesToNumeric BitsToFloat (TypedArray.ctor a) old) /\
    TypedArrayGetElement BitsToFloat st' a i
      = Some (RawBytesToNumeric BitsToFloat (TypedArray.ctor a)
                (<[n := byte_of_Z (ToIntN 8 false x)]> old)).
Proof.
  intros Hb (Hi & Hlo & Hhi) Hbuf Hc Hp Hn Hpos.
  unfold TypedArray.elementSize in Hhi.
  eexists _, _. split.
  { apply set_element with (data := data);
      [now rewrite Hbuf | assumption | now rewrite Hc]. }
  split; [apply get_element with (data := data); assumption|].
  erewrite get_element; [|simpl; rewrite Hbuf; apply lookup_insert_eq|assumption].
  rewrite Hc, Hpos.
  change (NumericToRawBytes FloatToBits Uint8Array (VNumber x))
    with [byte_of_Z (ToIntN 8 false x)].
  rewrite slice_splice_byte by lia.
  do 3 f_equal. lia.
Qed.

End Views.

(** ** The view returned by [asTypedArray] *)

(** What a successful call returns over a well-formed tensor. *)
Lemma asTypedArray_view toS st this k ta :
  Tensor.well_formed st this ->
  Tensor.asTypedArray toS st this k = Normal ta ->
  Shape.type (Tensor.shape this) = k /\
  ta = TypedArray.mk (typedArrays k)
         (TypedArray.buffer (Tensor.elements this))
         (TypedArray.ByteOffset (Tensor.elements this))
         (TypedArray.ArrayLength (Tensor.elements this) / Shape.ByteSize k) /\
  exists data,
    buffers st !! TypedArray.buffer (Tensor.elements this) = Some data /\
    0 <= TypedArray.ByteOffset (Tensor.elements this) /\
    0 <= TypedArray.ArrayLength (Tensor.elements this) /\
    TypedArray.ByteOffset (Tensor.elements this)
      + TypedArray.ArrayLength (Tensor.elements this)
      <= Z.of_nat (List.length data).
Proof.
  intros [Hu Hv] H.
  destruct (asTypedArray_Normal_inv _ _ _ _ _ H) as (Hk & _).
  subst k. split; [reflexivity|].
  assert (Hbl : TypedArray.byteLength st (Tensor.elements this)
                = TypedArray.ArrayLength (Tensor.elements this)).
  { destruct Hv as (data & Hb & _). unfold TypedArray.byteLength.
    rewrite Hb. unfold TypedArray.elementSize. rewrite Hu. apply Z.mul_1_r. }
  split.
  - destruct (Z.eq_dec
                (TypedArray.ByteOffset (Tensor.elements this)
                   mod Shape.ByteSize (Shape.type (Tensor.shape this))) 0)
      as [Hal|Hal].
    + rewrite asTypedArray_aligned in H by assumption.
      injection H as <-. now rewrite Hbl.
    + rewrite asTypedArray_misaligned in H by assumption. discriminate.
  - destruct Hv as (data & Hb & H0 & H1 & H2 & H3). exists data.
    unfold TypedArray.elementSize in H2. rewrite Hu in H2.
    change (BYTES_PER_ELEMENT Uint8Array) with 1 in H2.
    repeat split; try assumption. lia.
Qed.

(** Every element of the returned view lies inside the bytes of
    [elements]. *)
Lemma asTypedArray_element_in toS st this k ta i :
  Tensor.well_formed st this ->
  Tensor.asTypedArray toS st this k = Normal ta ->
  0 <= i < TypedArray.ArrayLength ta ->
  exists data,
    buffers st !! TypedArray.buffer ta = Some data /\
    element_in ta i data /\
    TypedArray.elementSize ta = Shape.ByteSize k /\
    TypedArray.buffer ta = TypedArray.buffer (Tensor.elements this) /\
    TypedArray.ByteOffset ta = TypedArray.ByteOffset (Tensor.elements this) /\
    (i + 1) * Shape.ByteSize k
      <= TypedArray.ArrayLength (Tensor.elements this).
Proof.
  intros Hwf H Hi.
  destruct (asTypedArray_view _ _ _ _ _ Hwf H)
    as (Hk & -> & data & Hb & H0 & H1 & H2).
  pose proof (ByteSize_pos k) as Hpos.
  simpl in Hi.
  assert (Hq : TypedArray.ArrayLength (Tensor.elements this) / Shape.ByteSize k
               * Shape.ByteSize k
               <= TypedArray.ArrayLength (Tensor.elements this)).
  { rewrite Z.mul_comm. apply Z.mul_div_le. assumption. }
  exists data. unfold element_in, byteIndexInBuffer, TypedArray.elementSize.
  simpl. rewrite typedArrays_width.
  repeat split; try assumption; try lia; nia.
Qed.

(** C5. The view [ta] that a successful [asTypedArray] returns over a
    well-formed tensor is a view of the buffer of [elements] at the same
    offset; no bytes are copied. For an index [i] in range and a value [v]
    that the element type holds exactly:
    - writing [v] at [i] through [ta] and reading [i] again gives [v];
    - the write is seen through every other view of that buffer: a view of
      the same element type reads [v] at the element on the same bytes, and
      [elements] reads the bytes of the encoding of [v];
    - and back: a write of [v] through such a view is read at [i] through
      [ta], and a byte written through [elements] is the matching byte of
      what [ta] reads at [i]. *)
Theorem asTypedArray_aliases
    (FloatToBits : TypedArrayCtor -> Number -> Z)
    (BitsToFloat : TypedArrayCtor -> Z -> Number)
    (toS : Store -> Shape.t -> string) (st : Store) (this : Tensor.t)
    (k : ElementKind) (ta : TypedArray.t) (i : Z) (v : Value) :
  Tensor.well_formed st this ->
  Tensor.asTypedArray toS st this k = Normal ta ->
  0 <= i < TypedArray.ArrayLength ta ->
  representable FloatToBits BitsToFloat (TypedArray.ctor ta) v ->
  TypedArray.buffer ta = TypedArray.buffer (Tensor.elements this) /\
  TypedArray.ByteOffset ta = TypedArray.ByteOffset (Tensor.elements this) /\
  (exists st',
     TypedArraySetElement FloatToBits st ta i v = Normal st' /\
     TypedArrayGetElement BitsToFloat st' ta i = Some v /\
     (forall tb j, same_element ta i tb j ->
        TypedArrayGetElement BitsToFloat st' tb j = Some v) /\
     (forall n, (n < Z.to_nat (TypedArray.elementSize ta))%nat ->
        exists b,
          NumericToRawBytes FloatToBits (TypedArray.ctor ta) v !! n = Some b /\
          TypedArrayGetElement BitsToFloat st' (Tensor.elements this)
            (i * TypedArray.elementSize ta + Z.of_nat n)
            = Some (byte_value b))) /\
  (forall tb j, same_element ta i tb j ->
     exists st',
       TypedArraySetElement FloatToBits st tb j v = Normal st' /\
       TypedArrayGetElement BitsToFloat st' ta i = Some v) /\
  (forall n x, (n < Z.to_nat (TypedArray.elementSize ta))%nat ->
     exists st' old,
       TypedArraySetElement FloatToBits st (Tensor.elements this)
         (i * TypedArray.elementSize ta + Z.of_nat n) (VNumber x)
         = Normal st' /\
       TypedArrayGetElement BitsToFloat st ta i
         = Some (RawBytesToNumeric BitsToFloat (TypedArray.ctor ta) old) /\
       TypedArrayGetElement BitsToFloat st' ta i
         = Some (RawBytesToNumeric BitsToFloat (TypedArray.ctor ta)
                   (<[n := byte_of_Z (ToIntN 8 false x)]> old))).
Proof.
  intros Hwf H Hi Hrep.
  destruct (asTypedArray_element_in _ _ _ _ _ _ Hwf H Hi)
    as (data & Hb & Hin & Hsz & Hbuf & Hoff & Hlen).
  pose proof (ToElementNumeric_representable _ _ _ _ Hrep) as Hnum.
  pose proof (ByteSize_pos k) as Hpos.
  destruct Hwf as [Hu Hv].
  assert (Hbyte : forall n, (n < Z.to_nat (TypedArray.elementSize ta))%nat ->
            0 <= i * TypedArray.elementSize ta + Z.of_nat n
              < TypedArray.ArrayLength (Tensor.elements this) /\
            byteIndexInBuffer (Tensor.elements this)
              (i * TypedArray.elementSize ta + Z.of_nat n)
              = byteIndexInBuffer ta i + Z.of_nat n).
  { intros n Hn. unfold byteIndexInBuffer.
    assert (He : TypedArray.elementSize (Tensor.elements this) = 1)
      by (unfold TypedArray.elementSize; now rewrite Hu).
    rewrite He, Hoff. rewrite Hsz in *. split; [nia | lia]. }
  split; [assumption|]. split; [assumption|]. split; [|split].
  - destruct (set_then_get FloatToBits BitsToFloat st ta ta i i v data)
      as (st' & Hset & Hget); try assumption; try reflexivity.
    exists st'. split; [assumption|].
    rewrite codec_roundtrip in Hget by assumption.
    split; [assumption|]. split.
    + intros tb j (Hb' & Hc' & Hj & Hp).
      destruct (set_then_get FloatToBits BitsToFloat st ta tb i j v data)
        as (st2 & Hset2 & Hget2); try assumption.
      rewrite Hset in Hset2. injection Hset2 as <-.
      now rewrite codec_roundtrip in Hget2.
    + intros n Hn. destruct (Hbyte n Hn) as [Hp Hpos'].
      destruct (set_then_get_byte FloatToBits BitsToFloat st ta
                  (Tensor.elements this) i
                  (i * TypedArray.elementSize ta + Z.of_nat n) v data n)
        as (st2 & b & Hset2 & Hraw & Hget2); try assumption.
      { now symmetry. }
      rewrite Hset in Hset2. injection Hset2 as <-.
      exists b. split; assumption.
  - intros tb j (Hb' & Hc' & Hj & Hp).
    destruct (set_then_get FloatToBits BitsToFloat st tb ta j i v data)
      as (st' & Hset & Hget).
    + now rewrite Hb'.
    + destruct Hin as (_ & Hlo & Hhi). unfold element_in.
      unfold TypedArray.elementSize in *. rewrite Hc', Hp.
      repeat split; (assumption || lia).
    + now rewrite Hc'.
    + now symmetry.
    + now symmetry.
    + assumption.
    + now symmetry.
    + exists st'. split; [assumption|]. rewrite Hc' in Hget.
      now rewrite codec_roundtrip in Hget.
  - intros n x Hn. destruct (Hbyte n Hn) as [Hp Hpos'].
    apply set_byte_then_get with (data := data); try assumption.
    now symmetry.
Qed.

Lemma asTypedArray_aliases_witness :
  exists st',
    TypedArraySetElement zero_FloatToBits sample_store
      (TypedArray.mk Int32Array 1%nat 4 2) 1 (VNumber (Number_of_Z (-2)))
      = Normal st' /\
    TypedArrayGetElement nan_BitsToFloat st'
      (TypedArray.mk Int32Array 1%nat 4 2) 1
      = Some (VNumber (Number_of_Z (-2))) /\
    TypedArrayGetElement nan_BitsToFloat st'
      (Tensor.elements (sample_tensor i32 4 8)) 4
      = Some (byte_value xfe).
Proof.
  destruct (asTypedArray_aliases zero_FloatToBits nan_BitsToFloat
              sample_toString sample_store (sample_tensor i32 4 8) i32
              (TypedArray.mk Int32Array 1%nat 4 2) 1
              (VNumber (Number_of_Z (-2))))
    as (_ & _ & (st' & Hset & Hget & _ & Hbytes) & _).
  - split; [reflexivity | apply sample_tensor_valid; lia].
  - reflexivity.
  - simpl. lia.
  - split; [reflexivity|]. exists (-2). split; reflexivity.
  - exists st'. split; [exact Hset|]. split; [exact Hget|].
    destruct (Hbytes 0%nat) as (b & Hb & Hg);
      [unfold TypedArray.elementSize; simpl; lia|].
    vm_compute in Hb. injection Hb as <-. exact Hg.
Defined.

(** ** Clamping and wrapping writes *)

Lemma ToUint8Clamp_above x :
  Number_lt (Number_of_Z 255) x -> ToUint8Clamp x = 255.
Proof.
  destruct x as [| | | |q]; simpl; try contradiction; try reflexivity.
  - intros H. discriminate H.
  - intros H.
    assert (H0 : Qle_bool q 0 = false).
    { destruct (Qle_bool q 0) eqn:E; [|reflexivity].
      apply Qle_bool_iff in E.
      exfalso. apply (Qlt_irrefl q).
      apply Qle_lt_trans with 0%Q; [assumption|].
      apply Qlt_trans with (inject_Z 255); [reflexivity | assumption]. }
    rewrite H0.
    assert (H1 : Qle_bool 255 q = true).
    { apply Qle_bool_iff. apply Qlt_le_weak. exact H. }
    rewrite H1. reflexivity.
Qed.

Lemma ToUint8Clamp_below x :
  Number_lt x (Number_of_Z 0) -> ToUint8Clamp x = 0.
Proof.
  destruct x as [| | | |q]; simpl; try contradiction; try reflexivity.
  intros H.
  assert (H0 : Qle_bool q 0 = true).
  { apply Qle_bool_iff. apply Qlt_le_weak. exact H. }
  rewrite H0. reflexivity.
Qed.

Section Writes.

Variable FloatToBits : TypedArrayCtor -> Number -> Z.
Variable BitsToFloat : TypedArrayCtor -> Z -> Number.

(** A Number written to an element of an integer view, then read back. *)
Lemma write_number_read st a i x data :
  buffers st !! TypedArray.buffer a = Some data ->
  element_in a i data ->
  is_float (TypedArray.ctor a) = false ->
  is_bigint (TypedArray.ctor a) = false ->
  exists st',
    TypedArraySetElement FloatToBits st a i (VNumber x) = Normal st' /\
    TypedArrayGetElement BitsToFloat st' a i
      = Some (VNumber (Number_of_Z
                (wrap (element_bits (TypedArray.ctor a))
                   (is_signed (TypedArray.ctor a))
                   (NumericToInt FloatToBits (TypedArray.ctor a) (VNumber x))))).
Proof.
  intros Hb Hin Hf Hbig.
  destruct (set_then_get FloatToBits BitsToFloat st a a i i (VNumber x) data)
    as (st' & Hset & Hget); try assumption; try reflexivity.
  - simpl. now rewrite Hbig.
  - apply Hin.
  - exists st'. split; [assumption|].
    now rewrite codec_integer in Hget.
Qed.

(** A BigInt written to an element of a BigInt view, then read back. *)
Lemma write_bigint_read st a i z data :
  buffers st !! TypedArray.buffer a = Some data ->
  element_in a i data ->
  is_bigint (TypedArray.ctor a) = true ->
  exists st',
    TypedArraySetElement FloatToBits st a i (VBigInt z) = Normal st' /\
    TypedArrayGetElement BitsToFloat st' a i
      = Some (VBigInt (wrap 64 (is_signed (TypedArray.ctor a)) z)).
Proof.
  intros Hb Hin Hbig.
  destruct (set_then_get FloatToBits BitsToFloat st a a i i (VBigInt z) data)
    as (st' & Hset & Hget); try assumption; try reflexivity.
  - simpl. now rewrite Hbig.
  - apply Hin.
  - exists st'. split; [assumption|].
    now rewrite codec_bigint in Hget.
Qed.

End Writes.

(** C10. Over a well-formed tensor declared [u8], [asTypedArray("u8")]
    returns a [Uint8ClampedArray]. Through it, a Number above 255 (or
    [+Infinity]) is stored as 255 and a Number below 0 (or [-Infinity]) as
    0. The same integer written through [elements], a [Uint8Array], is
    stored modulo 256, and the views of the kinds [i8], [i16], [u16], [i32],
    [u32] (Numbers) and [i64], [u64] (BigInts) store an integer modulo two
    to their width, read as signed for the signed kinds. *)
Theorem u8_view_clamps
    (FloatToBits : TypedArrayCtor -> Number -> Z)
    (BitsToFloat : TypedArrayCtor -> Z -> Number)
    (toS : Store -> Shape.t -> string) (st : Store) (this : Tensor.t) (i : Z) :
  Tensor.well_formed st this ->
  Shape.type (Tensor.shape this) = u8 ->
  0 <= i < TypedArray.ArrayLength (Tensor.elements this) ->
  (exists ta,
     Tensor.asTypedArray toS st this u8 = Normal ta /\
     TypedArray.ctor ta = Uint8ClampedArray /\
     (forall x, Number_lt (Number_of_Z 255) x ->
        exists st',
          TypedArraySetElement FloatToBits st ta i (VNumber x) = Normal st' /\
          TypedArrayGetElement BitsToFloat st' ta i
            = Some (VNumber (Number_of_Z 255))) /\
     (forall x, Number_lt x (Number_of_Z 0) ->
        exists st',
          TypedArraySetElement FloatToBits st ta i (VNumber x) = Normal st' /\
          TypedArrayGetElement BitsToFloat st' ta i
            = Some (VNumber (Number_of_Z 0)))) /\
  (forall z,
     exists st',
       TypedArraySetElement FloatToBits st (Tensor.elements this) i
         (VNumber (Number_of_Z z)) = Normal st' /\
       TypedArrayGetElement BitsToFloat st' (Tensor.elements this) i
         = Some (VNumber (Number_of_Z (z mod 256)))) /\
  (forall that k' ta' j z,
     Tensor.well_formed st that ->
     Tensor.asTypedArray toS st that k' = Normal ta' ->
     0 <= j < TypedArray.ArrayLength ta' ->
     (In k' [i8; i16; u16; i32; u32] ->
      exists st',
        TypedArraySetElement FloatToBits st ta' j (VNumber (Number_of_Z z))
          = Normal st' /\
        TypedArrayGetElement BitsToFloat st' ta' j
          = Some (VNumber (Number_of_Z
                    (wrap (8 * Shape.ByteSize k') (is_signed (typedArrays k'))
                       z)))) /\
     (In k' [i64; u64] ->
      exists st',
        TypedArraySetElement FloatToBits st ta' j (VBigInt z) = Normal st' /\
        TypedArrayGetElement BitsToFloat st' ta' j
          = Some (VBigInt (wrap 64 (is_signed (typedArrays k')) z)))).
Proof.
  intros Hwf Hk Hi. split; [|split].
  - destruct Hwf as [Hu Hv].
    assert (Hal : TypedArray.ByteOffset (Tensor.elements this)
                    mod Shape.ByteSize (Shape.type (Tensor.shape this)) = 0).
    { rewrite Hk. apply Z.mod_1_r. }
    pose proof (asTypedArray_aligned toS st this Hv Hal) as H.
    rewrite Hk in H. eexists. split; [exact H|].
    split; [reflexivity|].
    destruct (asTypedArray_element_in toS st this u8 _ i (conj Hu Hv) H)
      as (data & Hb & Hin & _).
    { simpl. destruct Hv as (data & Hb & _).
      unfold TypedArray.byteLength, TypedArray.elementSize.
      rewrite Hb, Hu. change (BYTES_PER_ELEMENT Uint8Array) with 1.
      rewrite Z.mul_1_r, Z.div_1_r. assumption. }
    split; intros x Hx.
    + destruct (write_number_read FloatToBits BitsToFloat st _ i x data Hb Hin)
        as (st' & Hset & Hget); try reflexivity.
      exists st'. split; [exact Hset|]. rewrite Hget. simpl NumericToInt.
      now rewrite (ToUint8Clamp_above x Hx).
    + destruct (write_number_read FloatToBits BitsToFloat st _ i x data Hb Hin)
        as (st' & Hset & Hget); try reflexivity.
      exists st'. split; [exact Hset|]. rewrite Hget. simpl NumericToInt.
      now rewrite (ToUint8Clamp_below x Hx).
  - intros z. destruct Hwf as [Hu Hv].
    destruct (valid_element_in st _ i Hv Hi) as (data & Hb & Hin).
    destruct (write_number_read FloatToBits BitsToFloat st _ i
                (Number_of_Z z) data Hb Hin)
      as (st' & Hset & Hget); try (rewrite Hu; reflexivity).
    exists st'. split; [exact Hset|]. rewrite Hget, Hu.
    simpl NumericToInt. unfold Number_of_Z at 2.
    rewrite ToIntN_integer, wrap_wrap by (now compute). reflexivity.
  - intros that k' ta' j z Hwf' H' Hj.
    destruct (asTypedArray_element_in toS st that k' ta' j Hwf' H' Hj)
      as (data & Hb & Hin & _).
    destruct (asTypedArray_view toS st that k' ta' Hwf' H') as (_ & Hta & _).
    assert (Hc : TypedArray.ctor ta' = typedArrays k') by now rewrite Hta.
    split; intros Hk'.
    + assert (Hnf : is_float (typedArrays k') = false
                    /\ is_bigint (typedArrays k') = false
                    /\ element_bits (typedArrays k') = 8 * Shape.ByteSize k'
                    /\ forall x, NumericToInt FloatToBits (typedArrays k')
                                   (VNumber x)
                                 = ToIntN (element_bits (typedArrays k'))
                                     (is_signed (typedArrays k')) x).
      { simpl in Hk'. repeat destruct Hk' as [<-|Hk']; try contradiction;
          repeat split; reflexivity. }
      destruct Hnf as (Hf & Hbig & Hbits & Hconv).
      destruct (write_number_read FloatToBits BitsToFloat st ta' j
                  (Number_of_Z z) data Hb Hin)
        as (st' & Hset & Hget); try (rewrite Hc; assumption).
      exists st'. split; [exact Hset|]. rewrite Hget, Hc, Hconv.
      unfold Number_of_Z at 2.
      rewrite ToIntN_integer, wrap_wrap by apply element_bits_pos.
      now rewrite Hbits.
    + assert (Hbig : is_bigint (typedArrays k') = true).
      { simpl in Hk'. repeat destruct Hk' as [<-|Hk']; try contradiction;
          reflexivity. }
      destruct (write_bigint_read FloatToBits BitsToFloat st ta' j z data Hb Hin)
        as (st' & Hset & Hget); [now rewrite Hc|].
      exists st'. split; [exact Hset|]. now rewrite Hget, Hc.
Qed.

Lemma u8_view_clamps_witness :
  exists ta,
    Tensor.asTypedArray sample_toString sample_store (sample_tensor u8 3 5) u8
      = Normal ta /\
    TypedArray.ctor ta = Uint8ClampedArray /\
    (forall x, Number_lt (Number_of_Z 255) x ->
       exists st',
         TypedArraySetElement zero_FloatToBits sample_store ta 2 (VNumber x)
           = Normal st' /\
         TypedArrayGetElement nan_BitsToFloat st' ta 2
           = Some (VNumber (Number_of_Z 255))) /\
    (forall x, Number_lt x (Number_of_Z 0) ->
       exists st',
         TypedArraySetElement zero_FloatToBits sample_store ta 2 (VNumber x)
           = Normal st' /\
         TypedArrayGetElement nan_BitsToFloat st' ta 2
           = Some (VNumber (Number_of_Z 0))).
Proof.
  apply (u8_view_clamps zero_FloatToBits nan_BitsToFloat sample_toString
           sample_store (sample_tensor u8 3 5) 2).
  - split; [reflexivity | apply sample_tensor_valid; lia].
  - reflexivity.
  - simpl. lia.
Defined.

(** * Further properties of [asTypedArray] and of the view it returns *)

Lemma well_formed_byteLength st this :
  Tensor.well_formed st this ->
  TypedArray.byteLength st (Tensor.elements this)
    = TypedArray.ArrayLength (Tensor.elements this).
Proof.
  intros [Hu (data & Hb & _)]. unfold TypedArray.byteLength.
  rewrite Hb. unfold TypedArray.elementSize. rewrite Hu. apply Z.mul_1_r.
Qed.

(** X1. The view that a successful call returns over a well-formed tensor
    is itself a valid view, starts where [elements] starts, has elements of
    the width of the kind, and covers the bytes of [elements] up to a tail
    shorter than one element: it never reaches past the bytes of
    [elements]. *)
Theorem asTypedArray_view_within
    (toS : Store -> Shape.t -> string) (st : Store) (this : Tensor.t)
    (k : ElementKind) (ta : TypedArray.t) :
  Tensor.well_formed st this ->
  Tensor.asTypedArray toS st this k = Normal ta ->
  TypedArray.valid st ta /\
  TypedArray.elementSize ta = Shape.ByteSize k /\
  TypedArray.ByteOffset ta = TypedArray.ByteOffset (Tensor.elements this) /\
  TypedArray.byteLength st ta
    + TypedArray.byteLength st (Tensor.elements this) mod Shape.ByteSize k
    = TypedArray.byteLength st (Tensor.elements this) /\
  0 <= TypedArray.byteLength st (Tensor.elements this)
         - TypedArray.byteLength st ta < Shape.ByteSize k.
Proof.
  intros Hwf H.
  pose proof (well_formed_byteLength _ _ Hwf) as Hbl.
  destruct (asTypedArray_view _ _ _ _ _ Hwf H) as (Hk & -> & _).
  destruct Hwf as [Hu (data & Hb & H0 & H1 & H2 & H3)].
  unfold TypedArray.elementSize in H2. rewrite Hu in H2.
  change (BYTES_PER_ELEMENT Uint8Array) with 1 in H2.
  pose proof (ByteSize_pos k) as Hpos.
  set (n := TypedArray.ArrayLength (Tensor.elements this)) in *.
  set (w := Shape.ByteSize k) in *.
  pose proof (Z.div_mod n w ltac:(lia)) as Hdm.
  pose proof (Z.mod_pos_bound n w Hpos) as Hmb.
  assert (0 <= n / w) by (apply Z.div_pos; lia).
  assert (Hsz : TypedArray.elementSize
                  (TypedArray.mk (typedArrays k)
                     (TypedArray.buffer (Tensor.elements this))
                     (TypedArray.ByteOffset (Tensor.elements this)) (n / w))
                = w).
  { unfold TypedArray.elementSize; simpl. apply typedArrays_width. }
  assert (Hbl' : TypedArray.byteLength st
                   (TypedArray.mk (typedArrays k)
                      (TypedArray.buffer (Tensor.elements this))
                      (TypedArray.ByteOffset (Tensor.elements this)) (n / w))
                 = n / w * w).
  { unfold TypedArray.byteLength; simpl. now rewrite Hb, Hsz. }
  split.
  { exists data. simpl. rewrite Hsz. repeat split; try assumption; nia. }
  split; [exact Hsz|]. split; [reflexivity|].
  rewrite Hbl', Hbl. split; nia.
Qed.

Lemma asTypedArray_view_within_witness :
  TypedArray.valid sample_store (TypedArray.mk Int32Array 1%nat 4 1) /\
  TypedArray.elementSize (TypedArray.mk Int32Array 1%nat 4 1)
    = Shape.ByteSize i32 /\
  TypedArray.ByteOffset (TypedArray.mk Int32Array 1%nat 4 1)
    = TypedArray.ByteOffset (Tensor.elements (sample_tensor i32 4 7)) /\
  TypedArray.byteLength sample_store (TypedArray.mk Int32Array 1%nat 4 1)
    + TypedArray.byteLength sample_store
        (Tensor.elements (sample_tensor i32 4 7)) mod Shape.ByteSize i32
    = TypedArray.byteLength sample_store
        (Tensor.elements (sample_tensor i32 4 7)) /\
  0 <= TypedArray.byteLength sample_store
         (Tensor.elements (sample_tensor i32 4 7))
       - TypedArray.byteLength sample_store (TypedArray.mk Int32Array 1%nat 4 1)
    < Shape.ByteSize i32.
Proof.
  apply (asTypedArray_view_within sample_toString sample_store
           (sample_tensor i32 4 7) i32 (TypedArray.mk Int32Array 1%nat 4 1)).
  - split; [reflexivity | apply sample_tensor_valid; lia].
  - reflexivity.
Defined.

(** X2. When the kinds agree and the buffer behind [elements] is detached,
    [asTypedArray] throws the [TypeError] of the typed-array constructor,
    for every kind and whatever offset and length the view had: the
    accessors of a detached view report offset 0 and length 0, which pass
    the alignment check, and the constructor then refuses the buffer. *)
Theorem asTypedArray_detached
    (toS : Store -> Shape.t -> string) (st : Store) (this : Tensor.t)
    (k : ElementKind) :
  Shape.type (Tensor.shape this) = k ->
  buffers st !! TypedArray.buffer (Tensor.elements this) = None ->
  Tensor.asTypedArray toS st this k = Throw TypeError.
Proof.
  intros <- Hb. rewrite asTypedArray_same_kind.
  unfold TypedArray.byteOffset, TypedArray.byteLength. rewrite Hb.
  unfold TypedArray.construct.
  rewrite ToIndex_integer by (change (2 ^ 53 - 1) with 9007199254740991; lia).
  simpl bind. change (0 mod _) with 0. simpl negb. cbv iota.
  rewrite ToIndex_quotient
    by (try apply ByteSize_pos;
        change (2 ^ 53 - 1) with 9007199254740991; lia).
  simpl bind. now rewrite Hb.
Qed.

Lemma asTypedArray_detached_witness :
  Tensor.asTypedArray sample_toString sample_store
    (Tensor.mk (Shape.mk f64 0%nat) (TypedArray.mk Uint8Array 9%nat 3 16)) f64
    = Throw TypeError.
Proof.
  apply (asTypedArray_detached sample_toString sample_store
           (Tensor.mk (Shape.mk f64 0%nat)
              (TypedArray.mk Uint8Array 9%nat 3 16)) f64).
  - reflexivity.
  - reflexivity.
Defined.

(** X3. In every store, valid or not, [asTypedArray(k)] throws an [Error]
    exactly when the string that the accessor [elementType] returns is not
    the name of [k]; the message is then the mismatch message. The errors
    of the constructor are never of this class. *)
Theorem asTypedArray_Error_iff_elementType
    (toS : Store -> Shape.t -> string) (st : Store) (this : Tensor.t)
    (k : ElementKind) :
  (exists message, Tensor.asTypedArray toS st this k = Throw (Error message))
  <-> Tensor.elementType this <> kind_name k.
Proof.
  unfold Tensor.elementType. split.
  - intros [message H] Heq. apply kind_name_inj in Heq. subst k.
    rewrite asTypedArray_same_kind in H.
    exact (construct_not_Error _ _ _ _ _ _ H).
  - intros Hne. eexists. unfold Tensor.asTypedArray.
    destruct (String.eqb _ _) eqn:E; [|reflexivity].
    apply String.eqb_eq in E. contradiction.
Qed.

(** X4. Reading through the returned view reinterprets the bytes of
    [elements] and nothing else: element [i] of the view is the decoding,
    at the element type of the kind, of the bytes that [elements] holds at
    the indices [i * width, ..., i * width + width - 1]. *)
Theorem asTypedArray_reads_elements_bytes
    (BitsToFloat : TypedArrayCtor -> Z -> Number)
    (toS : Store -> Shape.t -> string) (st : Store) (this : Tensor.t)
    (k : ElementKind) (ta : TypedArray.t) (i : Z) :
  Tensor.well_formed st this ->
  Tensor.asTypedArray toS st this k = Normal ta ->
  0 <= i < TypedArray.ArrayLength ta ->
  exists raw,
    List.length raw = Z.to_nat (Shape.ByteSize k) /\
    (forall n, (n < List.length raw)%nat ->
       TypedArrayGetElement BitsToFloat st (Tensor.elements this)
         (i * Shape.ByteSize k + Z.of_nat n)
         = byte_value <$> raw !! n) /\
    TypedArrayGetElement BitsToFloat st ta i
      = Some (RawBytesToNumeric BitsToFloat (typedArrays k) raw).
Proof.
  intros Hwf H Hi.
  destruct (asTypedArray_element_in _ _ _ _ _ _ Hwf H Hi)
    as (data & Hb & (_ & Hlo & Hhi) & Hsz & Hbuf & Hoff & Hlen).
  destruct (asTypedArray_view _ _ _ _ _ Hwf H) as (_ & Hta & _).
  assert (Hc : TypedArray.ctor ta = typedArrays k) by now rewrite Hta.
  pose proof (ByteSize_pos k) as Hpos. destruct Hwf as [Hu Hv].
  rewrite Hsz in Hhi.
  set (base := byteIndexInBuffer ta i) in *.
  exists (slice data (Z.to_nat base) (Z.to_nat (Shape.ByteSize k))).
  assert (Hlr : List.length
                  (slice data (Z.to_nat base) (Z.to_nat (Shape.ByteSize k)))
                = Z.to_nat (Shape.ByteSize k)) by (apply length_slice; lia).
  split; [exact Hlr|]. split.
  - intros n Hn. rewrite Hlr in Hn.
    rewrite slice_lookup by assumption.
    destruct (lookup_lt_is_Some_2 data (Z.to_nat base + n)%nat ltac:(lia))
      as [b Hdb].
    rewrite Hdb. simpl.
    erewrite get_element; [| rewrite <- Hbuf; exact Hb | nia].
    rewrite Hu. change (Z.to_nat (BYTES_PER_ELEMENT Uint8Array)) with 1%nat.
    erewrite slice_byte; [now rewrite RawBytesToNumeric_Uint8|].
    rewrite <- Hdb. f_equal.
    unfold byteIndexInBuffer, TypedArray.elementSize. rewrite Hu.
    change (BYTES_PER_ELEMENT Uint8Array) with 1.
    subst base. unfold byteIndexInBuffer in *. rewrite Hsz, Hoff in *. lia.
  - erewrite get_element by eassumption.
    rewrite Hc, typedArrays_width. reflexivity.
Qed.

Lemma asTypedArray_reads_elements_bytes_witness :
  exists raw,
    List.length raw = Z.to_nat (Shape.ByteSize i16) /\
    (forall n, (n < List.length raw)%nat ->
       TypedArrayGetElement nan_BitsToFloat sample_store
         (Tensor.elements (sample_tensor i16 2 6))
         (1 * Shape.ByteSize i16 + Z.of_nat n)
         = byte_value <$> raw !! n) /\
    TypedArrayGetElement nan_BitsToFloat sample_store
      (TypedArray.mk Int16Array 1%nat 2 3) 1
      = Some (RawBytesToNumeric nan_BitsToFloat (typedArrays i16) raw).
Proof.
  apply (asTypedArray_reads_elements_bytes nan_BitsToFloat sample_toString
           sample_store (sample_tensor i16 2 6) i16
           (TypedArray.mk Int16Array 1%nat 2 3) 1).
  - split; [reflexivity | apply sample_tensor_valid; lia].
  - reflexivity.
  - simpl. lia.
Defined.

Lemma length_splice data i raw :
  (i + List.length raw <= List.length data)%nat ->
  List.length (splice data i raw) = List.length data.
Proof.
  intros H. unfold splice.
  rewrite !length_app, length_take_le, length_drop by lia. lia.
Qed.

(** What an element write does to the store at large. *)
Lemma set_element_frame FloatToBits st a i v st' :
  TypedArraySetElement FloatToBits st a i v = Normal st' ->
  arrays st' = arrays st /\
  (forall b, b <> TypedArray.buffer a -> buffers st' !! b = buffers st !! b) /\
  (st' = st \/
   exists data,
     buffers st !! TypedArray.buffer a = Some data /\
     0 <= i < TypedArray.ArrayLength a /\
     buffers st' !! TypedArray.buffer a
       = Some (splice data (Z.to_nat (byteIndexInBuffer a i))
                 (NumericToRawBytes FloatToBits (TypedArray.ctor a) v))).
Proof.
  unfold TypedArraySetElement. intros H.
  assert (Hv : ToElementNumeric (TypedArray.ctor a) v = Normal v
               \/ ToElementNumeric (TypedArray.ctor a) v = Throw TypeError).
  { unfold ToElementNumeric. destruct v, (is_bigint _); auto. }
  destruct Hv as [Hv|Hv]; rewrite Hv in H; simpl in H; [|discriminate].
  unfold IsValidIntegerIndex, SetValueInBuffer in H.
  destruct (buffers st !! TypedArray.buffer a) as [data|] eqn:Hb.
  2:{ injection H as <-. auto. }
  destruct ((0 <=? i) && (i <? TypedArray.ArrayLength a)) eqn:E.
  2:{ injection H as <-. auto. }
  injection H as <-. simpl.
  apply andb_true_iff in E as [E1 E2].
  apply Z.leb_le in E1. apply Z.ltb_lt in E2.
  split; [reflexivity|]. split.
  - intros b Hne. now apply lookup_insert_ne.
  - right. exists data. split; [reflexivity|]. split; [lia|].
    apply lookup_insert_eq.
Qed.

(** X5. A write through the returned view, at any index and of any value,
    that does not throw leaves the number arrays and every other buffer as
    they were, keeps the length of the data block, and changes no byte
    outside the element written; so it changes no byte outside the extent
    of the view, and the bytes of [elements] past the last whole element
    stay out of its reach. *)
Theorem asTypedArray_write_frame
    (FloatToBits : TypedArrayCtor -> Number -> Z)
    (toS : Store -> Shape.t -> string) (st : Store) (this : Tensor.t)
    (k : ElementKind) (ta : TypedArray.t) (i : Z) (v : Value) (st' : Store) :
  Tensor.well_formed st this ->
  Tensor.asTypedArray toS st this k = Normal ta ->
  TypedArraySetElement FloatToBits st ta i v = Normal st' ->
  arrays st' = arrays st /\
  (forall b, b <> TypedArray.buffer (Tensor.elements this) ->
     buffers st' !! b = buffers st !! b) /\
  exists data data',
    buffers st !! TypedArray.buffer (Tensor.elements this) = Some data /\
    buffers st' !! TypedArray.buffer (Tensor.elements this) = Some data' /\
    List.length data' = List.length data /\
    (forall p : nat,
       ~ (0 <= i < TypedArray.ArrayLength ta /\
          byteIndexInBuffer ta i <= Z.of_nat p
            < byteIndexInBuffer ta i + Shape.ByteSize k) ->
       data' !! p = data !! p) /\
    (forall p : nat,
       Z.of_nat p < TypedArray.ByteOffset (Tensor.elements this) \/
       TypedArray.ByteOffset (Tensor.elements this)
         + TypedArray.ArrayLength ta * Shape.ByteSize k <= Z.of_nat p ->
       data' !! p = data !! p).
Proof.
  intros Hwf H Hset.
  destruct (set_element_frame _ _ _ _ _ _ Hset) as (Harr & Hother & Hcase).
  destruct (asTypedArray_view _ _ _ _ _ Hwf H) as (_ & Hta & data & Hb & _).
  assert (Hbuf : TypedArray.buffer ta = TypedArray.buffer (Tensor.elements this))
    by now rewrite Hta.
  rewrite Hbuf in *.
  split; [assumption|]. split; [assumption|].
  destruct Hcase as [-> | (data0 & Hb0 & Hi & Hb')].
  { exists data, data. repeat split; auto. }
  rewrite Hb in Hb0. injection Hb0 as <-.
  destruct (asTypedArray_element_in _ _ _ _ _ _ Hwf H Hi)
    as (data1 & Hb1 & (_ & Hlo & Hhi) & Hsz & _ & Hoff & _).
  rewrite Hbuf, Hb in Hb1. injection Hb1 as <-.
  rewrite Hsz in Hhi. pose proof (ByteSize_pos k) as Hpos.
  set (raw := NumericToRawBytes FloatToBits (TypedArray.ctor ta) v) in *.
  assert (Hlen : List.length raw = Z.to_nat (Shape.ByteSize k)).
  { subst raw. rewrite length_NumericToRawBytes.
    unfold TypedArray.elementSize in Hsz. now rewrite Hsz. }
  assert (Hout : forall p : nat,
            ~ (0 <= i < TypedArray.ArrayLength ta /\
               byteIndexInBuffer ta i <= Z.of_nat p
                 < byteIndexInBuffer ta i + Shape.ByteSize k) ->
            splice data (Z.to_nat (byteIndexInBuffer ta i)) raw !! p
              = data !! p).
  { intros p Hp. apply splice_lookup_out; lia. }
  eexists data, _. split; [exact Hb|]. split; [exact Hb'|].
  split; [apply length_splice; lia|]. split; [exact Hout|].
  intros p Hp. apply Hout. intros (_ & Hin).
  unfold byteIndexInBuffer in Hin. rewrite Hsz, Hoff in Hin. nia.
Qed.

Lemma asTypedArray_write_frame_witness :
  exists data data',
    buffers sample_store !! 1%nat = Some data /\
    buffers
      {| arrays := arrays sample_store;
         buffers :=
           <[1%nat := splice (replicate 24 x00) 8 [x07; x00; x00; x00]]>
             (buffers sample_store) |} !! 1%nat = Some data' /\
    List.length data' = List.length data /\
    data' !! 12%nat = data !! 12%nat.
Proof.
  destruct (asTypedArray_write_frame zero_FloatToBits sample_toString
              sample_store (sample_tensor i32 4 10) i32
              (TypedArray.mk Int32Array 1%nat 4 2) 1
              (VNumber (Number_of_Z 7))
              {| arrays := arrays sample_store;
                 buffers :=
                   <[1%nat := splice (replicate 24 x00) 8 [x07; x00; x00; x00]]>
                     (buffers sample_store) |})
    as (_ & _ & data & data' & Hd & Hd' & Hlen & _ & Hout).
  - split; [reflexivity | apply sample_tensor_valid; lia].
  - reflexivity.
  - reflexivity.
  - exists data, data'. repeat split; try assumption.
    apply Hout. right. simpl. lia.
Defined.

Lemma wrap_congruent bits s1 s2 z :
  0 < bits -> wrap bits s2 (wrap bits s1 z) = wrap bits s2 z.
Proof.
  intros Hb. rewrite <- (wrap_mod bits s2 (wrap bits s1 z)) by assumption.
  rewrite <- (wrap_mod bits s2 z) by assumption. f_equal.
  assert (H2 : 2 ^ bits <> 0) by (apply Z.pow_nonzero; lia).
  unfold wrap. destruct (s1 && _).
  - replace (z mod 2 ^ bits - 2 ^ bits)
      with (z mod 2 ^ bits + (-1) * 2 ^ bits) by lia.
    rewrite Z.mod_add by assumption. now apply Z.mod_mod.
  - now apply Z.mod_mod.
Qed.

(** A write through [a] at [i], then a read through a view [b] of another
    element type of the same width whose element [j] lies on the same
    bytes. *)
Lemma set_then_get_reinterpret FloatToBits BitsToFloat st a b i j v data :
  buffers st !! TypedArray.buffer a = Some data ->
  element_in a i data ->
  ToElementNumeric (TypedArray.ctor a) v = Normal v ->
  TypedArray.buffer b = TypedArray.buffer a ->
  BYTES_PER_ELEMENT (TypedArray.ctor b) = BYTES_PER_ELEMENT (TypedArray.ctor a) ->
  0 <= j < TypedArray.ArrayLength b ->
  byteIndexInBuffer b j = byteIndexInBuffer a i ->
  exists st',
    TypedArraySetElement FloatToBits st a i v = Normal st' /\
    TypedArrayGetElement BitsToFloat st' b j =
      Some (RawBytesToNumeric BitsToFloat (TypedArray.ctor b)
              (NumericToRawBytes FloatToBits (TypedArray.ctor a) v)).
Proof.
  intros Hb (Hi & Hlo & Hhi) Hv Hbuf Hw Hj Hpos.
  eexists. split; [apply set_element; eassumption|].
  erewrite get_element;
    [|simpl; rewrite Hbuf; apply lookup_insert_eq|assumption].
  rewrite Hw, Hpos.
  rewrite <- (length_NumericToRawBytes FloatToBits (TypedArray.ctor a) v).
  rewrite slice_splice; [reflexivity|].
  rewrite length_NumericToRawBytes. unfold TypedArray.elementSize in Hhi.
  pose proof (BYTES_PER_ELEMENT_pos (TypedArray.ctor a)). lia.
Qed.

(** X6. Two tensors over the same [elements] whose shapes declare two
    integer kinds of one width give two views of the same bytes. An integer
    written at [i] through the view of the first kind (one of [i8], [i16],
    [u16], [i32], [u32]) is read at [i] through the view of the second kind
    as that integer modulo two to the width, signed or not as the second
    kind is: the declared kind decides only how the bytes are read. *)
Theorem asTypedArray_reinterprets
    (FloatToBits : TypedArrayCtor -> Number -> Z)
    (BitsToFloat : TypedArrayCtor -> Z -> Number)
    (toS : Store -> Shape.t -> string) (st : Store)
    (this that : Tensor.t) (k1 k2 : ElementKind)
    (ta1 ta2 : TypedArray.t) (i z : Z) :
  Tensor.well_formed st this ->
  Tensor.elements that = Tensor.elements this ->
  Tensor.asTypedArray toS st this k1 = Normal ta1 ->
  Tensor.asTypedArray toS st that k2 = Normal ta2 ->
  Shape.ByteSize k1 = Shape.ByteSize k2 ->
  In k1 [i8; i16; u16; i32; u32] ->
  In k2 [u8; i8; i16; u16; i32; u32] ->
  0 <= i < TypedArray.ArrayLength ta1 ->
  exists st',
    TypedArraySetElement FloatToBits st ta1 i (VNumber (Number_of_Z z))
      = Normal st' /\
    TypedArrayGetElement BitsToFloat st' ta2 i
      = Some (VNumber (Number_of_Z
                (wrap (8 * Shape.ByteSize k2) (is_signed (typedArrays k2)) z))).
Proof.
  intros Hwf Hel H1 H2 Hw Hk1 Hk2 Hi.
  assert (Hwf2 : Tensor.well_formed st that)
    by (unfold Tensor.well_formed; now rewrite Hel).
  destruct (asTypedArray_element_in _ _ _ _ _ _ Hwf H1 Hi)
    as (data & Hb & Hin & _).
  destruct (asTypedArray_view _ _ _ _ _ Hwf H1) as (_ & Hta1 & _).
  destruct (asTypedArray_view _ _ _ _ _ Hwf2 H2) as (_ & Hta2 & _).
  rewrite Hel, <- Hw in Hta2.
  assert (Hc1 : TypedArray.ctor ta1 = typedArrays k1) by now rewrite Hta1.
  assert (Hc2 : TypedArray.ctor ta2 = typedArrays k2) by now rewrite Hta2.
  assert (Hn1 : is_bigint (typedArrays k1) = false /\
                forall x, NumericToInt FloatToBits (typedArrays k1) (VNumber x)
                          = ToIntN (element_bits (typedArrays k1))
                              (is_signed (typedArrays k1)) x).
  { simpl in Hk1. repeat destruct Hk1 as [<-|Hk1]; try contradiction;
      split; reflexivity. }
  assert (Hn2 : is_bigint (typedArrays k2) = false /\
                is_float (typedArrays k2) = false).
  { simpl in Hk2. repeat destruct Hk2 as [<-|Hk2]; try contradiction;
      split; reflexivity. }
  destruct Hn1 as [Hbig1 Hconv]. destruct Hn2 as [Hbig2 Hf2].
  assert (Hbits : element_bits (typedArrays k1) = 8 * Shape.ByteSize k2
                  /\ element_bits (typedArrays k2) = 8 * Shape.ByteSize k2).
  { unfold element_bits. rewrite !typedArrays_width, Hw. split; reflexivity. }
  destruct Hbits as [Hbits1 Hbits2].
  destruct (set_then_get_reinterpret FloatToBits BitsToFloat st ta1 ta2 i i
              (VNumber (Number_of_Z z)) data)
    as (st' & Hset & Hget); try assumption.
  - simpl. now rewrite Hc1, Hbig1.
  - now rewrite Hta1, Hta2.
  - now rewrite Hc1, Hc2, !typedArrays_width.
  - rewrite Hta1 in Hi. rewrite Hta2. exact Hi.
  - rewrite Hta1, Hta2. unfold byteIndexInBuffer, TypedArray.elementSize.
    simpl. now rewrite !typedArrays_width, Hw.
  - exists st'. split; [exact Hset|]. rewrite Hget.
    unfold RawBytesToNumeric.
    rewrite le_value_NumericToRawBytes, Hc1, Hc2, Hf2, Hbig2, Hconv.
    unfold Number_of_Z at 1. rewrite ToIntN_integer, Hbits1, Hbits2.
    pose proof (ByteSize_pos k2).
    rewrite wrap_mod, wrap_congruent by lia. reflexivity.
Qed.

Lemma asTypedArray_reinterprets_witness :
  exists st',
    TypedArraySetElement zero_FloatToBits sample_store
      (TypedArray.mk Int32Array 1%nat 4 2) 1 (VNumber (Number_of_Z (-1)))
      = Normal st' /\
    TypedArrayGetElement nan_BitsToFloat st'
      (TypedArray.mk Uint32Array 1%nat 4 2) 1
      = Some (VNumber (Number_of_Z
                (wrap (8 * Shape.ByteSize u32) (is_signed (typedArrays u32))
                   (-1)))).
Proof.
  apply (asTypedArray_reinterprets zero_FloatToBits nan_BitsToFloat
           sample_toString sample_store
           (sample_tensor i32 4 8) (sample_tensor u32 4 8) i32 u32
           (TypedArray.mk Int32Array 1%nat 4 2)
           (TypedArray.mk Uint32Array 1%nat 4 2) 1 (-1)).
  - split; [reflexivity | apply sample_tensor_valid; lia].
  - reflexivity.
  - reflexivity.
  - reflexivity.
  - reflexivity.
  - simpl. tauto.
  - simpl. tauto.
  - simpl. lia.
Defined.

(** X7. For the two kinds of width one, [u8] and [i8], no byte offset is
    misaligned: over every valid [elements] view the call returns a view
    at the offset of [elements] with one element per byte. *)
Theorem asTypedArray_byte_kinds
    (toS : Store -> Shape.t -> string) (st : Store) (this : Tensor.t)
    (k : ElementKind) :
  Shape.type (Tensor.shape this) = k ->
  k = u8 \/ k = i8 ->
  TypedArray.valid st (Tensor.elements this) ->
  exists ta,
    Tensor.asTypedArray toS st this k = Normal ta /\
    TypedArray.ByteOffset ta = TypedArray.ByteOffset (Tensor.elements this) /\
    TypedArray.length st ta = TypedArray.byteLength st (Tensor.elements this).
Proof.
  intros Hk Hone Hv.
  assert (Hw : Shape.ByteSize k = 1) by (destruct Hone as [->| ->]; reflexivity).
  subst k. eexists. split.
  { apply asTypedArray_aligned; [assumption|]. rewrite Hw. apply Z.mod_1_r. }
  destruct Hv as (data & Hb & _).
  unfold TypedArray.length; simpl. rewrite Hb, Hw, Z.div_1_r.
  split; reflexivity.
Qed.

Lemma asTypedArray_byte_kinds_witness :
  exists ta,
    Tensor.asTypedArray sample_toString sample_store (sample_tensor i8 5 7) i8
      = Normal ta /\
    TypedArray.ByteOffset ta
      = TypedArray.ByteOffset (Tensor.elements (sample_tensor i8 5 7)) /\
    TypedArray.length sample_store ta
      = TypedArray.byteLength sample_store
          (Tensor.elements (sample_tensor i8 5 7)).
Proof.
  apply (asTypedArray_byte_kinds sample_toString sample_store
           (sample_tensor i8 5 7) i8).
  - reflexivity.
  - right. reflexivity.
  - apply sample_tensor_valid; lia.
Defined.

(** An element write through a valid view keeps the length of every data
    block and detaches nothing. *)
Lemma set_preserves_lengths FloatToBits st a i v st' :
  TypedArray.valid st a ->
  TypedArraySetElement FloatToBits st a i v = Normal st' ->
  forall b,
    List.length <$> (buffers st' !! b) = List.length <$> (buffers st !! b).
Proof.
  intros Hv Hset b.
  destruct (set_element_frame _ _ _ _ _ _ Hset)
    as (_ & Hother & [-> | (data & Hb & Hi & Hb')]); [reflexivity|].
  destruct (decide (b = TypedArray.buffer a)) as [->|Hne].
  - rewrite Hb, Hb'. simpl. f_equal.
    destruct (valid_element_in st a i Hv Hi) as (data0 & Hb0 & _ & Hlo & Hhi).
    rewrite Hb in Hb0. injection Hb0 as <-.
    apply length_splice. rewrite length_NumericToRawBytes.
    unfold TypedArray.elementSize in Hhi.
    pose proof (BYTES_PER_ELEMENT_pos (TypedArray.ctor a)). lia.
  - now rewrite Hother.
Qed.

(** X8. Element writes never invalidate a view or a tensor. After a write
    through any valid view that does not throw, every view that was valid
    is still valid, and [asTypedArray] with the declared kind returns what
    it returned before the write: the same view, or the same error. *)
Theorem write_preserves_asTypedArray
    (FloatToBits : TypedArrayCtor -> Number -> Z)
    (toS : Store -> Shape.t -> string) (st st' : Store)
    (a : TypedArray.t) (i : Z) (v : Value) (this : Tensor.t)
    (k : ElementKind) :
  TypedArray.valid st a ->
  TypedArraySetElement FloatToBits st a i v = Normal st' ->
  Shape.type (Tensor.shape this) = k ->
  (forall b, TypedArray.valid st b -> TypedArray.valid st' b) /\
  Tensor.asTypedArray toS st' this k = Tensor.asTypedArray toS st this k.
Proof.
  intros Hv Hset <-.
  pose proof (set_preserves_lengths _ _ _ _ _ _ Hv Hset) as Hlen.
  split.
  - intros b (data & Hb & Hrest). specialize (Hlen (TypedArray.buffer b)).
    rewrite Hb in Hlen.
    destruct (buffers st' !! TypedArray.buffer b) as [data'|] eqn:Hb';
      [|discriminate]. simpl in Hlen. injection Hlen as Hlen.
    exists data'. split; [exact Hb'|]. now rewrite Hlen.
  - rewrite !asTypedArray_same_kind.
    specialize (Hlen (TypedArray.buffer (Tensor.elements this))).
    unfold TypedArray.byteOffset, TypedArray.byteLength, TypedArray.construct.
    destruct (buffers st' !! TypedArray.buffer (Tensor.elements this))
      as [data'|],
      (buffers st !! TypedArray.buffer (Tensor.elements this)) as [data|];
      try discriminate; [|reflexivity].
    simpl in Hlen. injection Hlen as Hlen. now rewrite Hlen.
Qed.

Lemma write_preserves_asTypedArray_witness :
  (forall b,
     TypedArray.valid sample_store b ->
     TypedArray.valid
       {| arrays := arrays sample_store;
          buffers :=
            <[1%nat := splice (replicate 24 x00) 8 [x07; x00; x00; x00]]>
              (buffers sample_store) |} b) /\
  Tensor.asTypedArray sample_toString
    {| arrays := arrays sample_store;
       buffers :=
         <[1%nat := splice (replicate 24 x00) 8 [x07; x00; x00; x00]]>
           (buffers sample_store) |}
    (sample_tensor f32 0 24) f32
    = Tensor.asTypedArray sample_toString sample_store
        (sample_tensor f32 0 24) f32.
Proof.
  apply (write_preserves_asTypedArray zero_FloatToBits sample_toString
           sample_store _ (TypedArray.mk Int32Array 1%nat 4 2) 1
           (VNumber (Number_of_Z 7)) (sample_tensor f32 0 24) f32).
  - exists (replicate 24 x00). split; [reflexivity|].
    unfold TypedArray.elementSize; simpl.
    change (2 ^ 53 - 1) with 9007199254740991. lia.
  - reflexivity.
  - reflexivity.
Defined.
